(** * pypool: a thread-safe pool of reusable resources

    Shallow embedding of [pypool/pool.py] (class [Pool]) and proofs about
    its acquisition / release protocol, its eviction policy, its counters
    and its use of the lock.

    Modelling choices, all read off the Python source:
    - a resource is a Python object, known by its identity ([ObjId]); the
      heap maps an identity to what the pool looks at in the object: its
      truth value ([if not resource]) and its instance [__dict__], where
      the pool keeps its two time stamps under the keys [CREATED] and
      [RELEASED].  Objects are shared: the pool, the kill list and the
      callers hold references, and a stamp written through one is seen
      through all;
    - time stamps ([time.time()]) are integers (clock ticks); the wall clock
      is an oracle [clk]: the n-th call of [now()] returns [clk n];
    - [create_resource] is the subclass hook: the oracle [mk] says what its
      n-th call does (returns an object, returns [None] as the base class
      does, or raises); [destroy_resource] is the other hook, a call that
      returns normally and leaves the pool and the stamps alone (the base
      class body is [pass]);
    - every method runs in a state-and-exception monad over [World]; an
      exception leaves the world as it was when it was raised.  The world
      also records a trace of lock operations, accesses to the shared
      attributes of the pool, method entries and hook calls, in program
      order;
    - the [while True] loop of [get_resource] is a recursion on fuel; the
      method gives it [len(pool) + 1], which is shown to be enough. *)

From Stdlib Require Import ZArith Lia.
From stdpp Require Import base option list gmap strings.

Local Open Scope Z_scope.

(** ** Data *)

Definition ObjId := nat.

Definition CREATED : string := "_pypool_created__".
Definition RELEASED : string := "_pypool_released__".

(** A Python object as far as the pool looks at it: [bool(obj)] and
    [obj.__dict__]. *)
Record Obj := mkObj {
  truthy : bool;
  obj_dict : gmap string Z
}.

(** An object the heap has no entry for is a plain instance: true, with no
    pool stamp in its [__dict__]. *)
Global Instance Obj_inhabited : Inhabited Obj := populate (mkObj true ∅).

Inductive Counter :=
| CCleared | CCreated | CKilledStale | CKilledTtl | COverflowDiscard
| CServedFromPool.

(** The attributes of a [Pool] instance. *)
Record Pool := mkPool {
  __pool : list ObjId;
  pool_size_limit : Z;
  max_age : Z;
  max_idle_time : Z;
  count_cleared : Z;
  count_created : Z;
  count_killed_stale : Z;
  count_killed_ttl : Z;
  count_overflow_discard : Z;
  count_served_from_pool : Z
}.

Inductive Field := FPool | FLimit | FCount (c : Counter).

Inductive Method :=
| MClearPool | MGetResource | MGetStatus | MPreheat | MReleaseResource
| MRestartPool | MShutDown.

Inductive Event :=
| EvCall (m : Method)
| EvAcquire
| EvRelease
| EvRead (f : Field)
| EvWrite (f : Field)
| EvCreate
| EvDestroy (r : ObjId).

Record World := mkWorld {
  self : Pool;
  heap : gmap ObjId Obj;
  ticks : nat;            (* calls of now() so far *)
  creates : nat;          (* calls of create_resource so far *)
  trace : list Event
}.

Inductive Exn := CreateFailed (code : nat) | AttributeError.

Inductive Outcome (A : Type) :=
| Ret (a : A)
| Raise (e : Exn)
| OutOfFuel.
Arguments Ret {A} a.
Arguments Raise {A} e.
Arguments OutOfFuel {A}.

(** What one call of the subclass's [create_resource] does. *)
Inductive CreateOutcome :=
| Returns (r : ObjId)
| ReturnsNone
| Raises (code : nat).

(** ** The monad *)

Definition M (A : Type) : Type := World -> Outcome A * World.

Global Instance M_ret : MRet M := fun A a w => (Ret a, w).

Global Instance M_bind : MBind M := fun A B f m w =>
  match m w with
  | (Ret a, w') => f a w'
  | (Raise e, w') => (Raise e, w')
  | (OutOfFuel, w') => (OutOfFuel, w')
  end.

Global Instance M_throw : MThrow Exn M := fun A e w => (Raise e, w).

Definition out_of_fuel {A} : M A := fun w => (OutOfFuel, w).

(** [try: body finally: cleanup] *)
Definition finally {A} (body : M A) (cleanup : M unit) : M A := fun w =>
  let (o, w1) := body w in
  match cleanup w1 with
  | (Ret _, w2) => (o, w2)
  | (Raise e, w2) => (Raise e, w2)
  | (OutOfFuel, w2) => (OutOfFuel, w2)
  end.

Definition gets {A} (f : World -> A) : M A := fun w => (Ret (f w), w).
Definition modify (f : World -> World) : M unit := fun w => (Ret tt, f w).

Definition set_self (f : Pool -> Pool) (w : World) : World :=
  mkWorld (f (self w)) (heap w) (ticks w) (creates w) (trace w).
Definition set_heap (f : gmap ObjId Obj -> gmap ObjId Obj) (w : World) : World :=
  mkWorld (self w) (f (heap w)) (ticks w) (creates w) (trace w).

Definition emit (e : Event) : M unit := fun w =>
  (Ret tt, mkWorld (self w) (heap w) (ticks w) (creates w) (trace w ++ [e])).

Definition count (c : Counter) (p : Pool) : Z :=
  match c with
  | CCleared => count_cleared p
  | CCreated => count_created p
  | CKilledStale => count_killed_stale p
  | CKilledTtl => count_killed_ttl p
  | COverflowDiscard => count_overflow_discard p
  | CServedFromPool => count_served_from_pool p
  end.

Definition add_count (c : Counter) (n : Z) (p : Pool) : Pool :=
  let '(mkPool l lim age idle c1 c2 c3 c4 c5 c6) := p in
  match c with
  | CCleared => mkPool l lim age idle (c1 + n) c2 c3 c4 c5 c6
  | CCreated => mkPool l lim age idle c1 (c2 + n) c3 c4 c5 c6
  | CKilledStale => mkPool l lim age idle c1 c2 (c3 + n) c4 c5 c6
  | CKilledTtl => mkPool l lim age idle c1 c2 c3 (c4 + n) c5 c6
  | COverflowDiscard => mkPool l lim age idle c1 c2 c3 c4 (c5 + n) c6
  | CServedFromPool => mkPool l lim age idle c1 c2 c3 c4 c5 (c6 + n)
  end.

Definition with_pool (l : list ObjId) (p : Pool) : Pool :=
  mkPool l (pool_size_limit p) (max_age p) (max_idle_time p)
    (count_cleared p) (count_created p) (count_killed_stale p)
    (count_killed_ttl p) (count_overflow_discard p) (count_served_from_pool p).

Definition with_limit (n : Z) (p : Pool) : Pool :=
  mkPool (__pool p) n (max_age p) (max_idle_time p)
    (count_cleared p) (count_created p) (count_killed_stale p)
    (count_killed_ttl p) (count_overflow_discard p) (count_served_from_pool p).

(** [resource.__dict__[key] = t] *)
Definition stamp (key : string) (t : Z) (o : Obj) : Obj :=
  mkObj (truthy o) (<[key := t]> (obj_dict o)).

(** [resdict.get(key, 0)] *)
Definition dict_get (d : gmap string Z) (key : string) : Z :=
  default 0 (d !! key).

(** ** Primitive actions: the lock, the shared attributes, the clock *)

Definition lock_acquire : M unit := emit EvAcquire.
Definition lock_release : M unit := emit EvRelease.

Definition read_pool : M (list ObjId) :=
  emit (EvRead FPool);; gets (fun w => __pool (self w)).
Definition write_pool (l : list ObjId) : M unit :=
  emit (EvWrite FPool);; modify (set_self (with_pool l)).
Definition read_limit : M Z :=
  emit (EvRead FLimit);; gets (fun w => pool_size_limit (self w)).
Definition write_limit (n : Z) : M unit :=
  emit (EvWrite FLimit);; modify (set_self (with_limit n)).
Definition read_count (c : Counter) : M Z :=
  emit (EvRead (FCount c));; gets (fun w => count c (self w)).
(** [self.count_x += n] *)
Definition incr_count (c : Counter) (n : Z) : M unit :=
  emit (EvRead (FCount c));; emit (EvWrite (FCount c));;
  modify (set_self (add_count c n)).

Definition get_dict (r : ObjId) : M (gmap string Z) :=
  gets (fun w => obj_dict (heap w !!! r)).
Definition set_stamp (r : ObjId) (key : string) (t : Z) : M unit :=
  modify (set_heap (fun h => <[r := stamp key t (h !!! r)]> h)).

(** [not value], for a value that is [None] or an object *)
Definition is_false (v : option ObjId) : M bool :=
  gets (fun w => match v with
                 | None => true
                 | Some r => negb (truthy (heap w !!! r))
                 end).

Section Pool.

(** The wall clock and the subclass's [create_resource]. *)
Variable clk : nat -> Z.
Variable mk : nat -> CreateOutcome.

Definition now : M Z := fun w =>
  (Ret (clk (ticks w)),
   mkWorld (self w) (heap w) (S (ticks w)) (creates w) (trace w)).

Definition create_resource : M (option ObjId) := fun w =>
  let w' := mkWorld (self w) (heap w) (ticks w) (S (creates w))
              (trace w ++ [EvCreate]) in
  match mk (creates w) with
  | Returns r => (Ret (Some r), w')
  | ReturnsNone => (Ret None, w')
  | Raises code => (Raise (CreateFailed code), w')
  end.

Definition destroy_resource (r : ObjId) : M unit := emit (EvDestroy r).

Fixpoint destroy_resources (resource_list : list ObjId) : M unit :=
  match resource_list with
  | [] => mret tt
  | resource :: rest => destroy_resource resource;; destroy_resources rest
  end.

Definition _pull : M (option ObjId) :=
  lock_acquire;;
  finally
    (l ← read_pool;
     match l with
     | [] => mret None
     | r :: l' => write_pool l';; mret (Some r)
     end)
    lock_release.

Definition clear_pool (new_pool_size_limit : option Z) : M unit :=
  emit (EvCall MClearPool);;
  lock_acquire;;
  old_pool ← finally
    (old_pool ← read_pool;
     write_pool [];;
     match new_pool_size_limit with
     | Some n => write_limit n
     | None => mret tt
     end;;
     mret old_pool)
    lock_release;
  incr_count CCleared (Z.of_nat (length old_pool));;
  destroy_resources old_pool.

(** The [while True] loop of [get_resource]; it yields the last value of
    [resource] and the kill list. *)
Fixpoint scan (fuel : nat) (min_created_time min_fresh_time : Z)
    (kill_list : list ObjId) : M (option ObjId * list ObjId) :=
  match fuel with
  | O => out_of_fuel
  | S fuel' =>
    resource ← _pull;
    stop ← is_false resource;
    match resource, (stop : bool) with
    | Some r, false =>
      resdict ← get_dict r;
      if dict_get resdict CREATED <? min_created_time then
        incr_count CKilledTtl 1;;
        scan fuel' min_created_time min_fresh_time (kill_list ++ [r])
      else if dict_get resdict RELEASED <? min_fresh_time then
        incr_count CKilledStale 1;;
        scan fuel' min_created_time min_fresh_time (kill_list ++ [r])
      else
        incr_count CServedFromPool 1;;
        mret (resource, kill_list)
    | _, _ => mret (resource, kill_list)
    end
  end.

Definition get_resource : M ObjId :=
  emit (EvCall MGetResource);;
  now_time ← now;
  idle ← gets (fun w => max_idle_time (self w));
  let min_fresh_time := if idle =? 0 then 0 else now_time - idle in
  age ← gets (fun w => max_age (self w));
  let min_created_time := if age =? 0 then 0 else now_time - age in
  (* every iteration pulls one resource: len(pool) + 1 iterations at most *)
  fuel ← gets (fun w => S (length (__pool (self w))));
  '(resource, kill_list) ← scan fuel min_created_time min_fresh_time [];
  destroy_resources kill_list;;
  stop ← is_false resource;
  match resource, (stop : bool) with
  | Some r, false => mret r
  | _, _ =>
    resource ← create_resource;
    t ← now;
    match resource with
    | None => mthrow AttributeError
    | Some r =>
      set_stamp r CREATED t;;
      incr_count CCreated 1;;
      mret r
    end
  end.

Definition get_status : M (gmap string Z) :=
  emit (EvCall MGetStatus);;
  l ← read_pool;
  lim ← read_limit;
  created ← read_count CCreated;
  cleared ← read_count CCleared;
  stale ← read_count CKilledStale;
  ttl ← read_count CKilledTtl;
  overflow ← read_count COverflowDiscard;
  served ← read_count CServedFromPool;
  mret (list_to_map
    [("pool_size", Z.of_nat (length l));
     ("pool_size_limit", lim);
     ("count_created", created);
     ("count_cleared", cleared);
     ("count_killed_stale", stale);
     ("count_killed_ttl", ttl);
     ("count_overflow_discard", overflow);
     ("count_served_from_pool", served)]).

Definition release_resource (resource : ObjId) : M unit :=
  emit (EvCall MReleaseResource);;
  lock_acquire;;
  stored ← finally
    (lim ← read_limit;
     room ← (if lim =? 0 then mret true
             else l ← read_pool;
                  lim' ← read_limit;
                  mret (Z.of_nat (length l) <? lim'));
     if (room : bool) then
       t ← now;
       set_stamp resource RELEASED t;;
       l ← read_pool;
       write_pool (l ++ [resource]);;
       mret true
     else mret false)
    lock_release;
  if (stored : bool) then mret tt
  else incr_count COverflowDiscard 1;; destroy_resource resource.

Fixpoint acquire_all (n : nat) : M (list ObjId) :=
  match n with
  | O => mret []
  | S n' => r ← get_resource; rs ← acquire_all n'; mret (r :: rs)
  end.

Fixpoint release_all (rs : list ObjId) : M unit :=
  match rs with
  | [] => mret tt
  | res :: rest => release_resource res;; release_all rest
  end.

Definition preheat (count : Z) : M unit :=
  emit (EvCall MPreheat);;
  rs ← acquire_all (Z.to_nat count);
  release_all rs.

Definition restart_pool (pool_size_limit : option Z) : M unit :=
  emit (EvCall MRestartPool);;
  clear_pool pool_size_limit.

Definition shut_down : M unit :=
  emit (EvCall MShutDown);;
  clear_pool (Some (-1)).

End Pool.

(** [Pool.__init__]: an empty pool, the counters at their class defaults. *)
Definition __init__ (pool_size_limit max_age max_idle_time : Z) : Pool :=
  mkPool [] pool_size_limit max_age max_idle_time 0 0 0 0 0 0.

(** A world in which nothing has happened yet: a new pool, no object
    stamped, the clock and the factory at their first call. *)
Definition fresh (pool_size_limit max_age max_idle_time : Z) : World :=
  mkWorld (__init__ pool_size_limit max_age max_idle_time) ∅ 0 0 [].

(** ** Callers *)

(** One call of a public method, its result dropped. *)
Inductive Op :=
| OpGet
| OpRelease (r : ObjId)
| OpClear (new_pool_size_limit : option Z)
| OpRestart (pool_size_limit : option Z)
| OpShutDown
| OpPreheat (count : Z)
| OpStatus.

Definition exec (clk : nat -> Z) (mk : nat -> CreateOutcome) (op : Op) : M unit :=
  match op with
  | OpGet => get_resource clk mk ≫= fun _ => mret tt
  | OpRelease r => release_resource clk r
  | OpClear n => clear_pool n
  | OpRestart n => restart_pool n
  | OpShutDown => shut_down
  | OpPreheat n => preheat clk mk n
  | OpStatus => get_status ≫= fun _ => mret tt
  end.

(** A caller that goes on after an exception: the calls run one after the
    other, each from the world the previous one left. *)
Definition exec_all (clk : nat -> Z) (mk : nat -> CreateOutcome)
    (ops : list Op) (w : World) : World :=
  fold_left (fun w op => (exec clk mk op w).2) ops w.

(** The calls that cannot assign [pool_size_limit]. *)
Definition keeps_limit (op : Op) : bool :=
  match op with
  | OpClear (Some _) | OpRestart (Some _) => false
  | _ => true
  end.

(** Callers that follow the protocol: a resource is released only by a
    caller that got it from [get_resource] and has not released it since.
    [held] is what the callers hold. *)
Inductive Call := Acquire | Release (r : ObjId).

Record Sys := mkSys {
  world : World;
  held : list ObjId
}.

Fixpoint remove_one (r : ObjId) (l : list ObjId) : option (list ObjId) :=
  match l with
  | [] => None
  | x :: l' =>
    if decide (x = r) then Some l'
    else match remove_one r l' with
         | Some l'' => Some (x :: l'')
         | None => None
         end
  end.

Definition call (clk : nat -> Z) (mk : nat -> CreateOutcome)
    (c : Call) (s : Sys) : option Sys :=
  match c with
  | Acquire =>
    match get_resource clk mk (world s) with
    | (Ret r, w') => Some (mkSys w' (r :: held s))
    | (_, w') => Some (mkSys w' (held s))
    end
  | Release r =>
    match remove_one r (held s) with
    | Some rest => Some (mkSys (release_resource clk r (world s)).2 rest)
    | None => None
    end
  end.

Fixpoint calls (clk : nat -> Z) (mk : nat -> CreateOutcome)
    (cs : list Call) (s : Sys) : option Sys :=
  match cs with
  | [] => Some s
  | c :: cs' =>
    match call clk mk c s with
    | Some s' => calls clk mk cs' s'
    | None => None
    end
  end.

(** ** Vocabulary of the statements *)

Definition createdAt (h : gmap ObjId Obj) (r : ObjId) : Z :=
  dict_get (obj_dict (h !!! r)) CREATED.
Definition releasedAt (h : gmap ObjId Obj) (r : ObjId) : Z :=
  dict_get (obj_dict (h !!! r)) RELEASED.

(** The two thresholds [get_resource] computes from its snapshot [t0]. *)
Definition min_created_at (t0 : Z) (p : Pool) : Z :=
  if max_age p =? 0 then 0 else t0 - max_age p.
Definition min_fresh_at (t0 : Z) (p : Pool) : Z :=
  if max_idle_time p =? 0 then 0 else t0 - max_idle_time p.

(** A pulled resource the loop kills, and one it serves. *)
Definition doomed (h : gmap ObjId Obj) (mc mf : Z) (r : ObjId) : Prop :=
  truthy (h !!! r) = true /\ (createdAt h r < mc \/ releasedAt h r < mf).
Definition valid (h : gmap ObjId Obj) (mc mf : Z) (r : ObjId) : Prop :=
  truthy (h !!! r) = true /\ mc <= createdAt h r /\ mf <= releasedAt h r.

Definition ttl_kills (h : gmap ObjId Obj) (mc : Z) (pre : list ObjId) : Z :=
  Z.of_nat (length (filter (fun r => createdAt h r < mc) pre)).
Definition stale_kills (h : gmap ObjId Obj) (mc : Z) (pre : list ObjId) : Z :=
  Z.of_nat (length (filter (fun r => mc <= createdAt h r) pre)).

Definition destroyed (tr : list Event) : list ObjId :=
  omap (fun e => match e with EvDestroy r => Some r | _ => None end) tr.
Definition called (tr : list Event) : list Method :=
  omap (fun e => match e with EvCall m => Some m | _ => None end) tr.

(** The events of one iteration of the loop and of the whole scan. *)
Definition pull_events : list Event :=
  [EvAcquire; EvRead FPool; EvWrite FPool; EvRelease].
Definition pull_none_events : list Event :=
  [EvAcquire; EvRead FPool; EvRelease].
Definition incr_events (c : Counter) : list Event :=
  [EvRead (FCount c); EvWrite (FCount c)].
Definition kill_counter (h : gmap ObjId Obj) (mc : Z) (r : ObjId) : Counter :=
  if createdAt h r <? mc then CKilledTtl else CKilledStale.
Fixpoint kill_events (h : gmap ObjId Obj) (mc : Z) (pre : list ObjId)
    : list Event :=
  match pre with
  | [] => []
  | r :: pre' =>
    pull_events ++ incr_events (kill_counter h mc r) ++ kill_events h mc pre'
  end.

(** The world [get_resource] has made of [w] when its loop has killed
    [pre], left [rest] in the pool and the kill list is destroyed; [evs]
    are the events of the last iteration, [served] what it added to
    [count_served_from_pool]. *)
Definition scanned (mc : Z) (pre rest : list ObjId) (evs : list Event)
    (served : Z) (w : World) : World :=
  let p := self w in
  mkWorld
    (mkPool rest (pool_size_limit p) (max_age p) (max_idle_time p)
       (count_cleared p) (count_created p)
       (count_killed_stale p + stale_kills (heap w) mc pre)
       (count_killed_ttl p + ttl_kills (heap w) mc pre)
       (count_overflow_discard p) (count_served_from_pool p + served))
    (heap w) (S (ticks w)) (creates w)
    (trace w ++ EvCall MGetResource :: kill_events (heap w) mc pre ++ evs
       ++ map EvDestroy pre).

(** Lines 113-117 of [get_resource], the branch that creates. *)
Definition create_branch (clk : nat -> Z) (mk : nat -> CreateOutcome)
    : M ObjId :=
  resource ← create_resource mk;
  t ← now clk;
  match resource with
  | None => mthrow AttributeError
  | Some r =>
    set_stamp r CREATED t;;
    incr_count CCreated 1;;
    mret r
  end.


(** The test of [release_resource]: [(not self.pool_size_limit) or
    (len(self.__pool) < self.pool_size_limit)]. *)
Definition has_room (p : Pool) : bool :=
  (pool_size_limit p =? 0)
  || (Z.of_nat (length (__pool p)) <? pool_size_limit p).

(** The events of [release_resource] when it stores and when it discards,
    and those of [clear_pool] up to the destructions. *)
Definition stored_events (lim : Z) : list Event :=
  [EvCall MReleaseResource; EvAcquire; EvRead FLimit]
  ++ (if lim =? 0 then [] else [EvRead FPool; EvRead FLimit])
  ++ [EvRead FPool; EvWrite FPool; EvRelease].
Definition discarded_events (r : ObjId) : list Event :=
  [EvCall MReleaseResource; EvAcquire; EvRead FLimit; EvRead FPool;
   EvRead FLimit; EvRelease]
  ++ incr_events COverflowDiscard ++ [EvDestroy r].
Definition clear_events (new_pool_size_limit : option Z) : list Event :=
  [EvCall MClearPool; EvAcquire; EvRead FPool; EvWrite FPool]
  ++ match new_pool_size_limit with
     | Some _ => [EvWrite FLimit]
     | None => []
     end
  ++ [EvRelease] ++ incr_events CCleared.

(** What a call of [get_resource] can be: a resource served from the pool,
    or the creating branch after the pool ran dry or gave a false object. *)
Inductive GetCase (clk : nat -> Z) (mk : nat -> CreateOutcome) (w : World)
    : Outcome ObjId * World -> Prop :=
| GetServed pre r post :
    let mc := min_created_at (clk (ticks w)) (self w) in
    let mf := min_fresh_at (clk (ticks w)) (self w) in
    __pool (self w) = pre ++ r :: post ->
    Forall (doomed (heap w) mc mf) pre ->
    valid (heap w) mc mf r ->
    GetCase clk mk w
      (Ret r,
       scanned mc pre post (pull_events ++ incr_events CServedFromPool) 1 w)
| GetExhausted :
    let mc := min_created_at (clk (ticks w)) (self w) in
    let mf := min_fresh_at (clk (ticks w)) (self w) in
    Forall (doomed (heap w) mc mf) (__pool (self w)) ->
    GetCase clk mk w
      (create_branch clk mk
         (scanned mc (__pool (self w)) [] pull_none_events 0 w))
| GetFalsy pre r post :
    let mc := min_created_at (clk (ticks w)) (self w) in
    let mf := min_fresh_at (clk (ticks w)) (self w) in
    __pool (self w) = pre ++ r :: post ->
    Forall (doomed (heap w) mc mf) pre ->
    truthy (heap w !!! r) = false ->
    GetCase clk mk w
      (create_branch clk mk (scanned mc pre post pull_events 0 w)).

Definition status_events : list Event :=
  [EvCall MGetStatus; EvRead FPool; EvRead FLimit; EvRead (FCount CCreated);
   EvRead (FCount CCleared); EvRead (FCount CKilledStale);
   EvRead (FCount CKilledTtl); EvRead (FCount COverflowDiscard);
   EvRead (FCount CServedFromPool)].

(** The size bound of the idle sequence. *)
Definition size_ok (p : Pool) : Prop :=
  0 < pool_size_limit p -> Z.of_nat (length (__pool p)) <= pool_size_limit p.

(** The pool after [shut_down]: nothing idle, the limit at -1. *)
Definition shut (p : Pool) : Prop :=
  __pool p = [] /\ pool_size_limit p = -1.

(** The books of a pool and its callers: every object [create_resource]
    returns is true, so is every object held by a caller or idle in the
    pool, and every resource created is held by a caller, idle in the pool,
    or was destroyed as overflow or by one of the two checks. *)
Definition accounted (mk : nat -> CreateOutcome) (s : Sys) : Prop :=
  let p := self (world s) in
  let h := heap (world s) in
  (forall n r, mk n = Returns r -> truthy (h !!! r) = true) /\
  Forall (fun x => truthy (h !!! x) = true) (held s ++ __pool p) /\
  count_created p =
    Z.of_nat (length (held s)) + Z.of_nat (length (__pool p))
    + count_overflow_discard p + count_killed_ttl p + count_killed_stale p.

(** No stamp is negative: the clock counts from the epoch. *)
Definition after_epoch (h : gmap ObjId Obj) : Prop :=
  forall r, 0 <= createdAt h r /\ 0 <= releasedAt h r.

(** ** Lock discipline of a trace *)

(** One event, with the lock held or not: [None] when the event breaks the
    discipline, else the state of the lock after it.  [shared f] says
    which attributes must only be touched with the lock held.  The hooks
    must run with the lock free. *)
Definition lock_step (shared : Field -> bool) (locked : bool) (e : Event)
    : option bool :=
  match e with
  | EvCall _ => Some locked
  | EvAcquire => if locked then None else Some true
  | EvRelease => if locked then Some false else None
  | EvRead f | EvWrite f =>
    if shared f && negb locked then None else Some locked
  | EvCreate | EvDestroy _ => if locked then None else Some locked
  end.

Fixpoint lock_check (shared : Field -> bool) (locked : bool)
    (tr : list Event) : option bool :=
  match tr with
  | [] => Some locked
  | e :: tr' =>
    match lock_step shared locked e with
    | Some locked' => lock_check shared locked' tr'
    | None => None
    end
  end.

(** A trace that starts and ends with the lock free and keeps the
    discipline in between. *)
Definition disciplined (shared : Field -> bool) (tr : list Event) : Prop :=
  lock_check shared false tr = Some false.

Definition all_shared (f : Field) : bool := true.
Definition pool_and_limit (f : Field) : bool :=
  match f with
  | FPool | FLimit => true
  | FCount _ => false
  end.
Definition nothing_shared (f : Field) : bool := false.

(** ** Concrete oracles and worlds for the examples *)

Definition clk_demo (n : nat) : Z := 1000 + Z.of_nat n.
Definition clk_slow (n : nat) : Z := 1000 + 400 * Z.of_nat n.
Definition mk_demo (n : nat) : CreateOutcome := Returns (10 + n)%nat.
Definition mk_fail (n : nat) : CreateOutcome := Raises 7.
Definition mk_once (n : nat) : CreateOutcome :=
  match n with
  | O => Returns 10%nat
  | S _ => Raises 7
  end.
Definition clk_late (n : nat) : Z := 10000 + Z.of_nat n.

Definition obj_at (created released : Z) : Obj :=
  mkObj true (<[RELEASED := released]> (<[CREATED := created]> ∅)).

(** Four idle resources at time 10000: 1 is too old, 2 has idled too long,
    3 and 4 are fine. *)
Definition heap_mixed : gmap ObjId Obj :=
  <[1%nat := obj_at 5000 9900]> (<[2%nat := obj_at 9000 9500]>
    (<[3%nat := obj_at 9800 9900]> (<[4%nat := obj_at 9850 9950]> ∅))).
Definition w_mixed : World :=
  mkWorld (mkPool [1%nat; 2%nat; 3%nat; 4%nat] 10 3600 300 0 4 0 0 0 0)
    heap_mixed 0 0 [].
(** The same resources in a pool with both checks switched off. *)
Definition w_unchecked : World :=
  mkWorld (mkPool [1%nat; 2%nat; 3%nat; 4%nat] 10 0 0 0 4 0 0 0 0)
    heap_mixed 0 0 [].

(** ** Vocabulary of the further properties *)

(** The object carries a stamp under [key]. *)
Definition stamped (key : string) (h : gmap ObjId Obj) (r : ObjId) : Prop :=
  is_Some (obj_dict (h !!! r) !! key).

(** The resources the pool has counted as destroyed. *)
Definition count_destroyed (p : Pool) : Z :=
  count_cleared p + count_killed_stale p + count_killed_ttl p
  + count_overflow_discard p.

(** The limit a call leaves, and how often it may call [create_resource]. *)
Definition limit_after (op : Op) (limit : Z) : Z :=
  match op with
  | OpClear (Some n) | OpRestart (Some n) => n
  | OpShutDown => -1
  | _ => limit
  end.
Definition create_bound (op : Op) : nat :=
  match op with
  | OpGet => 1
  | OpPreheat count => Z.to_nat count
  | _ => 0
  end.

(** A pool whose first idle object is false in a boolean context (an empty
    container, say), followed by a fine one. *)
Definition heap_falsy : gmap ObjId Obj :=
  <[1%nat := mkObj false (obj_dict (obj_at 9800 9900))]>
    (<[2%nat := obj_at 9850 9950]> ∅).
Definition w_falsy : World :=
  mkWorld (mkPool [1%nat; 2%nat] 10 3600 300 0 2 0 0 0 0) heap_falsy 0 0 [].

(** The base class, whose [create_resource] returns [None]. *)
Definition mk_base (n : nat) : CreateOutcome := ReturnsNone.

(** * Proofs *)

(** Running a method on a world given by its fields: first unfold the
    actions down to [emit], [gets] and [modify], let [cbn] compute, then
    unfold what is left of those. *)
Ltac unfold_m :=
  unfold _pull, lock_acquire, lock_release, read_pool, write_pool, read_limit,
    write_limit, read_count, incr_count, get_dict, set_stamp, is_false,
    destroy_resource, finally, out_of_fuel,
    mbind, M_bind, mret, M_ret, mthrow, M_throw in *.
Ltac unfold_st := unfold emit, gets, modify, set_self, set_heap in *.

Lemma mkPool_eq l l' lim lim' age age' idle idle' c1 c1' c2 c2' c3 c3' c4 c4'
    c5 c5' c6 c6' :
  l = l' -> lim = lim' -> age = age' -> idle = idle' -> c1 = c1' ->
  c2 = c2' -> c3 = c3' -> c4 = c4' -> c5 = c5' -> c6 = c6' ->
  mkPool l lim age idle c1 c2 c3 c4 c5 c6 =
  mkPool l' lim' age' idle' c1' c2' c3' c4' c5' c6'.
Proof. intros; subst; reflexivity. Qed.

Lemma mkWorld_eq p p' h h' t t' c c' tr tr' :
  p = p' -> h = h' -> t = t' -> c = c' -> tr = tr' ->
  mkWorld p h t c tr = mkWorld p' h' t' c' tr'.
Proof. intros; subst; reflexivity. Qed.

Ltac world_eq :=
  apply mkWorld_eq; [apply mkPool_eq | ..];
  try reflexivity; try lia;
  try (rewrite <- ?app_assoc; cbn [app]; reflexivity).

Section Runs.

Variable clk : nat -> Z.
Variable mk : nat -> CreateOutcome.

Lemma destroy_resources_run l : forall w,
  destroy_resources l w =
  (Ret tt, mkWorld (self w) (heap w) (ticks w) (creates w)
             (trace w ++ map EvDestroy l)).
Proof.
  induction l as [|r l IH]; intros [p h t c tr]; cbn [destroy_resources map].
  - unfold_m. cbn. rewrite app_nil_r. reflexivity.
  - unfold mbind at 1, M_bind at 1. unfold destroy_resource, emit at 1.
    rewrite IH. cbn. rewrite <- app_assoc. reflexivity.
Qed.

Lemma pull_cons r l lim age idle c1 c2 c3 c4 c5 c6 h t c tr :
  _pull (mkWorld (mkPool (r :: l) lim age idle c1 c2 c3 c4 c5 c6) h t c tr) =
  (Ret (Some r),
   mkWorld (mkPool l lim age idle c1 c2 c3 c4 c5 c6) h t c (tr ++ pull_events)).
Proof. unfold_m. cbn. rewrite <- !app_assoc. reflexivity. Qed.

Lemma pull_nil lim age idle c1 c2 c3 c4 c5 c6 h t c tr :
  _pull (mkWorld (mkPool [] lim age idle c1 c2 c3 c4 c5 c6) h t c tr) =
  (Ret None,
   mkWorld (mkPool [] lim age idle c1 c2 c3 c4 c5 c6) h t c
     (tr ++ pull_none_events)).
Proof. unfold_m. cbn. rewrite <- !app_assoc. reflexivity. Qed.

Lemma ttl_kills_cons h mc r pre :
  ttl_kills h mc (r :: pre) =
  (if createdAt h r <? mc then 1 else 0) + ttl_kills h mc pre.
Proof.
  unfold ttl_kills. rewrite filter_cons.
  destruct (Z.ltb_spec (createdAt h r) mc); case_decide; cbn [length]; lia.
Qed.

Lemma stale_kills_cons h mc r pre :
  stale_kills h mc (r :: pre) =
  (if createdAt h r <? mc then 0 else 1) + stale_kills h mc pre.
Proof.
  unfold stale_kills. rewrite filter_cons.
  destruct (Z.ltb_spec (createdAt h r) mc); case_decide; cbn [length]; lia.
Qed.

Lemma kills_total h mc pre :
  ttl_kills h mc pre + stale_kills h mc pre = Z.of_nat (length pre).
Proof.
  induction pre as [|r pre IH]; [reflexivity|].
  rewrite ttl_kills_cons, stale_kills_cons. cbn [length].
  destruct (createdAt h r <? mc); lia.
Qed.

Lemma kills_nonneg h mc pre : 0 <= ttl_kills h mc pre /\ 0 <= stale_kills h mc pre.
Proof. unfold ttl_kills, stale_kills. lia. Qed.

(** The loop kills a doomed prefix of the pool and goes on. *)
Lemma scan_prefix mc mf pre :
  forall post lim age idle c1 c2 c3 c4 c5 c6 h t c tr kill fuel,
  Forall (doomed h mc mf) pre ->
  scan (length pre + fuel) mc mf kill
    (mkWorld (mkPool (pre ++ post) lim age idle c1 c2 c3 c4 c5 c6) h t c tr) =
  scan fuel mc mf (kill ++ pre)
    (mkWorld (mkPool post lim age idle c1 c2 (c3 + stale_kills h mc pre)
                (c4 + ttl_kills h mc pre) c5 c6) h t c
       (tr ++ kill_events h mc pre)).
Proof.
  induction pre as [|r pre IH];
    intros post lim age idle c1 c2 c3 c4 c5 c6 h t c tr kill fuel Hd.
  - cbn. rewrite !Z.add_0_r, !app_nil_r. reflexivity.
  - inversion Hd as [|? ? [Ht Hr] Hpre]; subst.
    rewrite ttl_kills_cons, stale_kills_cons.
    rewrite <- app_comm_cons.
    change (length (r :: pre) + fuel)%nat with (S (length pre + fuel)).
    cbn [scan kill_events]. unfold mbind at 1, M_bind at 1. rewrite pull_cons.
    unfold_m. cbn -[scan kill_events]. rewrite Ht. cbn -[scan kill_events].
    unfold kill_counter. fold (createdAt h r) (releasedAt h r).
    destruct (Z.ltb_spec (createdAt h r) mc) as [Hc|Hc].
    + unfold_st. cbn -[scan kill_events]. rewrite IH by assumption.
      f_equal; [rewrite <- app_assoc; reflexivity | world_eq].
    + destruct (Z.ltb_spec (releasedAt h r) mf) as [Hf|Hf]; [|lia].
      unfold_st. cbn -[scan kill_events]. rewrite IH by assumption.
      f_equal; [rewrite <- app_assoc; reflexivity | world_eq].
Qed.

Lemma scan_stop_empty mc mf fuel lim age idle c1 c2 c3 c4 c5 c6 h t c tr kill :
  scan (S fuel) mc mf kill
    (mkWorld (mkPool [] lim age idle c1 c2 c3 c4 c5 c6) h t c tr) =
  (Ret (None, kill),
   mkWorld (mkPool [] lim age idle c1 c2 c3 c4 c5 c6) h t c
     (tr ++ pull_none_events)).
Proof.
  cbn [scan]. unfold mbind at 1, M_bind at 1. rewrite pull_nil. reflexivity.
Qed.

Lemma scan_stop_valid mc mf fuel r post lim age idle c1 c2 c3 c4 c5 c6 h t c
    tr kill :
  valid h mc mf r ->
  scan (S fuel) mc mf kill
    (mkWorld (mkPool (r :: post) lim age idle c1 c2 c3 c4 c5 c6) h t c tr) =
  (Ret (Some r, kill),
   mkWorld (mkPool post lim age idle c1 c2 c3 c4 c5 (c6 + 1)) h t c
     (tr ++ pull_events ++ incr_events CServedFromPool)).
Proof.
  intros (Ht & Hc & Hf).
  cbn [scan]. unfold mbind at 1, M_bind at 1. rewrite pull_cons.
  unfold_m. cbn -[scan]. rewrite Ht. cbn -[scan].
  fold (createdAt h r) (releasedAt h r).
  destruct (Z.ltb_spec (createdAt h r) mc); [lia|].
  destruct (Z.ltb_spec (releasedAt h r) mf); [lia|].
  cbn. f_equal. world_eq.
Qed.

Lemma scan_stop_falsy mc mf fuel r post lim age idle c1 c2 c3 c4 c5 c6 h t c
    tr kill :
  truthy (h !!! r) = false ->
  scan (S fuel) mc mf kill
    (mkWorld (mkPool (r :: post) lim age idle c1 c2 c3 c4 c5 c6) h t c tr) =
  (Ret (Some r, kill),
   mkWorld (mkPool post lim age idle c1 c2 c3 c4 c5 c6) h t c
     (tr ++ pull_events)).
Proof.
  intros Ht.
  cbn [scan]. unfold mbind at 1, M_bind at 1. rewrite pull_cons.
  unfold_m. cbn -[scan]. rewrite Ht. reflexivity.
Qed.

(** Every pool is a doomed prefix followed by nothing, by a valid resource
    or by a false one. *)
Lemma span_doomed h mc mf (l : list ObjId) :
  exists pre post, l = pre ++ post /\ Forall (doomed h mc mf) pre /\
    (post = [] \/
     exists r post', post = r :: post' /\
       (valid h mc mf r \/ truthy (h !!! r) = false)).
Proof.
  induction l as [|r l (pre & post & -> & Hpre & Hpost)].
  - exists [], []. repeat split; [constructor | left; reflexivity].
  - destruct (truthy (h !!! r)) eqn:Ht.
    + destruct (Z.lt_ge_cases (createdAt h r) mc) as [Hc|Hc];
        [|destruct (Z.lt_ge_cases (releasedAt h r) mf) as [Hf|Hf]].
      * exists (r :: pre), post. repeat split; [|assumption].
        constructor; [split; [assumption | left; assumption] | assumption].
      * exists (r :: pre), post. repeat split; [|assumption].
        constructor; [split; [assumption | right; assumption] | assumption].
      * exists [], (r :: pre ++ post). repeat split; [constructor|].
        right. exists r, (pre ++ post). split; [reflexivity|].
        left. repeat split; assumption.
    + exists [], (r :: pre ++ post). repeat split; [constructor|].
      right. exists r, (pre ++ post). split; [reflexivity | right; assumption].
Qed.

Lemma get_resource_serves w pre r post :
  let mc := min_created_at (clk (ticks w)) (self w) in
  let mf := min_fresh_at (clk (ticks w)) (self w) in
  __pool (self w) = pre ++ r :: post ->
  Forall (doomed (heap w) mc mf) pre ->
  valid (heap w) mc mf r ->
  get_resource clk mk w =
  (Ret r,
   scanned mc pre post (pull_events ++ incr_events CServedFromPool) 1 w).
Proof.
  destruct w as [[l lim age idle c1 c2 c3 c4 c5 c6] h t c tr].
  cbn -[min_created_at min_fresh_at]. intros -> Hpre Hr.
  unfold get_resource, now, min_created_at, min_fresh_at in *.
  unfold_m. cbn -[scan] in *.
  replace (S (length (pre ++ r :: post)))
    with (length pre + S (S (length post)))%nat
    by (rewrite length_app; cbn [length]; lia).
  rewrite scan_prefix by assumption.
  rewrite scan_stop_valid by assumption.
  rewrite destroy_resources_run. cbn.
  destruct Hr as (-> & _). cbn. unfold scanned. cbn.
  f_equal. world_eq.
Qed.

Lemma get_resource_unfold :
  get_resource clk mk =
  (emit (EvCall MGetResource);;
   now_time ← now clk;
   idle ← gets (fun w => max_idle_time (self w));
   age ← gets (fun w => max_age (self w));
   (* every iteration pulls one resource: len(pool) + 1 iterations at most *)
  fuel ← gets (fun w => S (length (__pool (self w))));
   '(resource, kill_list) ←
     scan fuel (if age =? 0 then 0 else now_time - age)
       (if idle =? 0 then 0 else now_time - idle) [];
   destroy_resources kill_list;;
   stop ← is_false resource;
   match resource, (stop : bool) with
   | Some r, false => mret r
   | _, _ => create_branch clk mk
   end).
Proof. reflexivity. Qed.

Lemma get_resource_exhausted w :
  let mc := min_created_at (clk (ticks w)) (self w) in
  let mf := min_fresh_at (clk (ticks w)) (self w) in
  Forall (doomed (heap w) mc mf) (__pool (self w)) ->
  get_resource clk mk w =
  create_branch clk mk (scanned mc (__pool (self w)) [] pull_none_events 0 w).
Proof.
  destruct w as [[l lim age idle c1 c2 c3 c4 c5 c6] h t c tr].
  cbn -[min_created_at min_fresh_at]. intros Hpre.
  rewrite get_resource_unfold.
  unfold now, min_created_at, min_fresh_at in *.
  unfold_m. cbn -[scan create_branch] in *.
  replace (S (length l)) with (length l + 1)%nat by lia.
  rewrite <- (app_nil_r l) at 2.
  rewrite scan_prefix by assumption.
  rewrite scan_stop_empty.
  rewrite destroy_resources_run. cbn -[create_branch].
  unfold scanned. cbn -[create_branch]. f_equal. world_eq.
Qed.

Lemma get_resource_falsy w pre r post :
  let mc := min_created_at (clk (ticks w)) (self w) in
  let mf := min_fresh_at (clk (ticks w)) (self w) in
  __pool (self w) = pre ++ r :: post ->
  Forall (doomed (heap w) mc mf) pre ->
  truthy (heap w !!! r) = false ->
  get_resource clk mk w =
  create_branch clk mk (scanned mc pre post pull_events 0 w).
Proof.
  destruct w as [[l lim age idle c1 c2 c3 c4 c5 c6] h t c tr].
  cbn -[min_created_at min_fresh_at]. intros -> Hpre Hr.
  rewrite get_resource_unfold.
  unfold now, min_created_at, min_fresh_at in *.
  unfold_m. cbn -[scan create_branch] in *.
  replace (S (length (pre ++ r :: post)))
    with (length pre + S (S (length post)))%nat
    by (rewrite length_app; cbn [length]; lia).
  rewrite scan_prefix by assumption.
  rewrite scan_stop_falsy by assumption.
  rewrite destroy_resources_run. cbn -[create_branch].
  rewrite Hr. cbn -[create_branch]. unfold scanned. cbn -[create_branch].
  f_equal. world_eq.
Qed.

(** The three ways the creating branch ends. *)
Lemma create_branch_returns w r :
  mk (creates w) = Returns r ->
  create_branch clk mk w =
  (Ret r,
   mkWorld (add_count CCreated 1 (self w))
     (<[r := stamp CREATED (clk (ticks w)) (heap w !!! r)]> (heap w))
     (S (ticks w)) (S (creates w))
     (trace w ++ EvCreate :: incr_events CCreated)).
Proof.
  destruct w as [[l lim age idle c1 c2 c3 c4 c5 c6] h t c tr]. cbn. intros E.
  unfold create_branch, create_resource, now. unfold_m. cbn. rewrite E. cbn.
  f_equal. world_eq.
Qed.

Lemma create_branch_none w :
  mk (creates w) = ReturnsNone ->
  create_branch clk mk w =
  (Raise AttributeError,
   mkWorld (self w) (heap w) (S (ticks w)) (S (creates w))
     (trace w ++ [EvCreate])).
Proof.
  destruct w as [p h t c tr]. cbn. intros E.
  unfold create_branch, create_resource, now. unfold_m. cbn. rewrite E.
  reflexivity.
Qed.

Lemma create_branch_raises w code :
  mk (creates w) = Raises code ->
  create_branch clk mk w =
  (Raise (CreateFailed code),
   mkWorld (self w) (heap w) (ticks w) (S (creates w))
     (trace w ++ [EvCreate])).
Proof.
  destruct w as [p h t c tr]. cbn. intros E.
  unfold create_branch, create_resource, now. unfold_m. cbn. rewrite E.
  reflexivity.
Qed.

Lemma get_resource_cases w : GetCase clk mk w (get_resource clk mk w).
Proof.
  destruct (span_doomed (heap w) (min_created_at (clk (ticks w)) (self w))
              (min_fresh_at (clk (ticks w)) (self w)) (__pool (self w)))
    as (pre & post & E & Hpre & [-> | (r & post' & -> & [Hr | Hr])]).
  - rewrite app_nil_r in E. rewrite get_resource_exhausted by (rewrite E; exact Hpre).
    apply GetExhausted. rewrite E. exact Hpre.
  - rewrite (get_resource_serves w pre r post') by assumption.
    exact (GetServed clk mk w pre r post' E Hpre Hr).
  - rewrite (get_resource_falsy w pre r post') by assumption.
    exact (GetFalsy clk mk w pre r post' E Hpre Hr).
Qed.


Lemma release_resource_stored w r :
  has_room (self w) = true ->
  release_resource clk r w =
  (Ret tt,
   mkWorld (with_pool (__pool (self w) ++ [r]) (self w))
     (<[r := stamp RELEASED (clk (ticks w)) (heap w !!! r)]> (heap w))
     (S (ticks w)) (creates w)
     (trace w ++ stored_events (pool_size_limit (self w)))).
Proof.
  destruct w as [[l lim age idle c1 c2 c3 c4 c5 c6] h t c tr].
  unfold has_room, stored_events, release_resource, now. unfold_m. cbn.
  destruct (lim =? 0) eqn:E0; cbn.
  - intros _. unfold_st. cbn. f_equal. world_eq.
  - intros ->. cbn. unfold_st. cbn. f_equal. world_eq.
Qed.

Lemma release_resource_discarded w r :
  has_room (self w) = false ->
  release_resource clk r w =
  (Ret tt,
   mkWorld (add_count COverflowDiscard 1 (self w)) (heap w) (ticks w)
     (creates w) (trace w ++ discarded_events r)).
Proof.
  destruct w as [[l lim age idle c1 c2 c3 c4 c5 c6] h t c tr].
  unfold has_room, discarded_events, release_resource, now. unfold_m. cbn.
  destruct (lim =? 0) eqn:E0; cbn; [discriminate|].
  intros ->. cbn. unfold_st. cbn. f_equal. world_eq.
Qed.

Lemma clear_pool_run w new_limit :
  clear_pool new_limit w =
  (Ret tt,
   mkWorld
     (add_count CCleared (Z.of_nat (length (__pool (self w))))
        (with_pool []
           (with_limit (default (pool_size_limit (self w)) new_limit)
              (self w))))
     (heap w) (ticks w) (creates w)
     (trace w ++ clear_events new_limit ++ map EvDestroy (__pool (self w)))).
Proof.
  destruct w as [[l lim age idle c1 c2 c3 c4 c5 c6] h t c tr].
  unfold clear_pool, clear_events. unfold_m. cbn -[destroy_resources].
  destruct new_limit as [n|]; cbn -[destroy_resources];
    rewrite destroy_resources_run; cbn; f_equal; world_eq.
Qed.


(** The creating branch leaves the pool's list, limit and the counters
    other than [count_created] alone, whatever the hook does. *)
Lemma create_branch_frame w :
  let '(o, w') := create_branch clk mk w in
  __pool (self w') = __pool (self w) /\
  pool_size_limit (self w') = pool_size_limit (self w) /\
  max_age (self w') = max_age (self w) /\
  max_idle_time (self w') = max_idle_time (self w) /\
  count_cleared (self w') = count_cleared (self w) /\
  count_killed_stale (self w') = count_killed_stale (self w) /\
  count_killed_ttl (self w') = count_killed_ttl (self w) /\
  count_overflow_discard (self w') = count_overflow_discard (self w) /\
  count_served_from_pool (self w') = count_served_from_pool (self w) /\
  match o with
  | Ret r =>
    mk (creates w) = Returns r /\
    count_created (self w') = count_created (self w) + 1 /\
    heap w' = <[r := stamp CREATED (clk (ticks w)) (heap w !!! r)]> (heap w) /\
    ticks w' = S (ticks w)
  | Raise e =>
    count_created (self w') = count_created (self w) /\ heap w' = heap w /\
    match e with
    | CreateFailed code => mk (creates w) = Raises code /\ ticks w' = ticks w
    | AttributeError => mk (creates w) = ReturnsNone /\ ticks w' = S (ticks w)
    end
  | OutOfFuel => False
  end /\
  creates w' = S (creates w) /\
  trace w' =
    trace w ++ EvCreate ::
      match o with Ret _ => incr_events CCreated | _ => [] end.
Proof.
  destruct (mk (creates w)) as [r| |code] eqn:E.
  - rewrite (create_branch_returns w r E).
    destruct w as [[l lim age idle c1 c2 c3 c4 c5 c6] h t c tr]. cbn.
    repeat split; reflexivity || assumption.
  - rewrite (create_branch_none w E). cbn. repeat split; reflexivity || assumption.
  - rewrite (create_branch_raises w code E). cbn.
    repeat split; reflexivity || assumption.
Qed.


Lemma destroyed_app tr1 tr2 :
  destroyed (tr1 ++ tr2) = destroyed tr1 ++ destroyed tr2.
Proof. apply omap_app. Qed.

Lemma destroyed_map l : destroyed (map EvDestroy l) = l.
Proof. induction l as [|r l IH]; [reflexivity|]. cbn. f_equal. exact IH. Qed.

Lemma destroyed_kill_events h mc pre : destroyed (kill_events h mc pre) = [].
Proof. induction pre as [|r pre IH]; [reflexivity|]. cbn. exact IH. Qed.

Lemma called_app tr1 tr2 : called (tr1 ++ tr2) = called tr1 ++ called tr2.
Proof. apply omap_app. Qed.

Lemma called_map l : called (map EvDestroy l) = [].
Proof. induction l as [|r l IH]; [reflexivity|]. cbn. exact IH. Qed.

Lemma called_kill_events h mc pre : called (kill_events h mc pre) = [].
Proof. induction pre as [|r pre IH]; [reflexivity|]. cbn. exact IH. Qed.

(** What the scan destroys and which methods it enters. *)
Lemma destroyed_scanned mc pre rest evs served w :
  destroyed evs = [] ->
  destroyed (trace (scanned mc pre rest evs served w)) =
  destroyed (trace w) ++ pre.
Proof.
  intros Hevs. cbn. rewrite destroyed_app. f_equal. cbn.
  rewrite !destroyed_app, destroyed_kill_events, Hevs, destroyed_map.
  reflexivity.
Qed.

Lemma called_scanned mc pre rest evs served w :
  called evs = [] ->
  called (trace (scanned mc pre rest evs served w)) =
  called (trace w) ++ [MGetResource].
Proof.
  intros Hevs. cbn. rewrite called_app. f_equal. cbn.
  rewrite !called_app, called_kill_events, Hevs, called_map.
  reflexivity.
Qed.


(** Everything a call of [get_resource] does to the pool and the heap. *)
Lemma get_resource_effect w :
  let o := (get_resource clk mk w).1 in
  let w' := (get_resource clk mk w).2 in
  let mc := min_created_at (clk (ticks w)) (self w) in
  let mf := min_fresh_at (clk (ticks w)) (self w) in
  exists pre,
    Forall (doomed (heap w) mc mf) pre /\
    count_killed_ttl (self w') =
      count_killed_ttl (self w) + ttl_kills (heap w) mc pre /\
    count_killed_stale (self w') =
      count_killed_stale (self w) + stale_kills (heap w) mc pre /\
    pool_size_limit (self w') = pool_size_limit (self w) /\
    max_age (self w') = max_age (self w) /\
    max_idle_time (self w') = max_idle_time (self w) /\
    count_cleared (self w') = count_cleared (self w) /\
    count_overflow_discard (self w') = count_overflow_discard (self w) /\
    pre `prefix_of` __pool (self w) /\
    __pool (self w') `suffix_of` __pool (self w) /\
    let dry :=
      (__pool (self w) = pre /\ __pool (self w') = []) \/
      (exists x, __pool (self w) = pre ++ x :: __pool (self w') /\
                 truthy (heap w !!! x) = false) in
    match o with
    | Ret r =>
      (__pool (self w) = pre ++ r :: __pool (self w') /\
       valid (heap w) mc mf r /\
       count_served_from_pool (self w') = count_served_from_pool (self w) + 1 /\
       count_created (self w') = count_created (self w) /\
       heap w' = heap w /\ creates w' = creates w)
      \/
      (dry /\ mk (creates w) = Returns r /\
       count_served_from_pool (self w') = count_served_from_pool (self w) /\
       count_created (self w') = count_created (self w) + 1 /\
       heap w' =
         <[r := stamp CREATED (clk (S (ticks w))) (heap w !!! r)]> (heap w) /\
       creates w' = S (creates w))
    | Raise e =>
      dry /\
      count_served_from_pool (self w') = count_served_from_pool (self w) /\
      count_created (self w') = count_created (self w) /\
      heap w' = heap w /\ creates w' = S (creates w)
    | OutOfFuel => False
    end.
Proof.
  pose proof (get_resource_cases w) as Hcase.
  destruct Hcase as [pre r post mc mf E Hpre Hr | mc mf Hpre
                    | pre r post mc mf E Hpre Hr]; cbn [fst snd].
  - exists pre. split; [exact Hpre|]. cbn.
    repeat (split; [reflexivity|]).
    split; [exists (r :: post); exact E|].
    split; [exists (pre ++ [r]); rewrite <- app_assoc; exact E|].
    left. repeat split; try apply Hr; auto.
  - exists (__pool (self w)). split; [exact Hpre|].
    pose proof (create_branch_frame
      (scanned mc (__pool (self w)) [] pull_none_events 0 w)) as Hf.
    destruct (create_branch clk mk _) as [o w'].
    destruct Hf as (Hl & Hlim & Hage & Hidle & Hc1 & Hc3 & Hc4 & Hc5 & Hc6 &
                    Ho & Hcr & Htr).
    cbn [fst snd]. rewrite Hc3, Hc4, Hlim, Hage, Hidle, Hc1, Hc5, Hc6, Hl, Hcr.
    cbn. repeat (split; [reflexivity|]).
    split; [exists (__pool (self w)); rewrite app_nil_r; reflexivity|].
    destruct o as [r|e|]; [|destruct e|]; cbn in Ho |- *.
    + right. destruct Ho as (Hmk & Hc2 & Hh & Ht).
      repeat split; auto; lia.
    + destruct Ho as (Hc2 & Hh & _). repeat split; auto; lia.
    + destruct Ho as (Hc2 & Hh & _). repeat split; auto; lia.
    + exact Ho.
  - exists pre. split; [exact Hpre|].
    pose proof (create_branch_frame
      (scanned mc pre post pull_events 0 w)) as Hf.
    destruct (create_branch clk mk _) as [o w'].
    destruct Hf as (Hl & Hlim & Hage & Hidle & Hc1 & Hc3 & Hc4 & Hc5 & Hc6 &
                    Ho & Hcr & Htr).
    cbn [fst snd]. rewrite Hc3, Hc4, Hlim, Hage, Hidle, Hc1, Hc5, Hc6, Hl, Hcr.
    cbn. repeat (split; [reflexivity|]).
    split; [exists (r :: post); exact E|].
    split; [exists (pre ++ [r]); rewrite <- app_assoc; exact E|].
    assert ((__pool (self w) = pre /\ post = []) \/
            (exists x, __pool (self w) = pre ++ x :: post /\
                       truthy (heap w !!! x) = false)) as Hdry
      by (right; exists r; split; assumption).
    destruct o as [r'|e|]; [|destruct e|]; cbn in Ho |- *.
    + right. destruct Ho as (Hmk & Hc2 & Hh & Ht).
      repeat split; auto; lia.
    + destruct Ho as (Hc2 & Hh & _). repeat split; auto; lia.
    + destruct Ho as (Hc2 & Hh & _). repeat split; auto; lia.
    + exact Ho.
Qed.

(** [get_resource] gives its loop enough fuel: it returns or raises. *)
Lemma get_resource_total w : (get_resource clk mk w).1 <> OutOfFuel.
Proof.
  destruct (get_resource_effect w) as (pre & _ & _ & _ & _ & _ & _ & _ & _ & _ & _ & Ho).
  destruct (get_resource clk mk w).1; [discriminate | discriminate | destruct Ho].
Qed.


Lemma ttl_kills_none h mc pre :
  Forall (fun r => mc <= createdAt h r) pre -> ttl_kills h mc pre = 0.
Proof.
  induction 1 as [|r pre Hr _ IH]; [reflexivity|].
  rewrite ttl_kills_cons, IH.
  destruct (Z.ltb_spec (createdAt h r) mc); lia.
Qed.

Lemma stale_kills_none h mc mf pre :
  Forall (doomed h mc mf) pre ->
  Forall (fun r => mf <= releasedAt h r) pre -> stale_kills h mc pre = 0.
Proof.
  induction 1 as [|r pre [_ Hr] _ IH]; intros Hf; [reflexivity|].
  inversion Hf; subst.
  rewrite stale_kills_cons, IH by assumption.
  destruct (Z.ltb_spec (createdAt h r) mc); lia.
Qed.


Lemma get_status_run w :
  (get_status w).2 =
  mkWorld (self w) (heap w) (ticks w) (creates w) (trace w ++ status_events).
Proof.
  destruct w as [p h t c tr]. unfold get_status, status_events. unfold_m.
  cbn -[list_to_map]. rewrite <- !app_assoc. reflexivity.
Qed.

Lemma release_resource_returns w r : (release_resource clk r w).1 = Ret tt.
Proof.
  destruct (has_room (self w)) eqn:E.
  - rewrite release_resource_stored by exact E. reflexivity.
  - rewrite release_resource_discarded by exact E. reflexivity.
Qed.

(** ** Invariants of the compound methods *)

Section Preservation.

Variable I : World -> Prop.
Hypothesis I_call : forall m w, I w -> I (emit (EvCall m) w).2.
Hypothesis I_get : forall w, I w -> I (get_resource clk mk w).2.
Hypothesis I_release : forall r w, I w -> I (release_resource clk r w).2.

Lemma acquire_all_preserves n : forall w, I w -> I (acquire_all clk mk n w).2.
Proof.
  induction n as [|n IH]; intros w Hw; [exact Hw|].
  cbn [acquire_all]. unfold mbind, M_bind.
  pose proof (I_get w Hw) as H1.
  destruct (get_resource clk mk w) as [[r|e|] w1]; cbn [snd] in *;
    [|exact H1|exact H1].
  pose proof (IH w1 H1) as H2.
  destruct (acquire_all clk mk n w1) as [[rs|e|] w2]; cbn [snd] in *;
    exact H2.
Qed.

Lemma release_all_preserves rs : forall w, I w -> I (release_all clk rs w).2.
Proof.
  induction rs as [|r rs IH]; intros w Hw; [exact Hw|].
  cbn [release_all]. unfold mbind, M_bind.
  pose proof (I_release r w Hw) as H1.
  pose proof (release_resource_returns w r) as Hret.
  destruct (release_resource clk r w) as [o w1]; cbn [fst snd] in *.
  subst o. apply IH. exact H1.
Qed.

Lemma preheat_preserves count w : I w -> I (preheat clk mk count w).2.
Proof.
  intros Hw. unfold preheat. unfold mbind, M_bind.
  pose proof (I_call MPreheat w Hw) as H0.
  destruct (emit (EvCall MPreheat) w) as [o w0] eqn:E0.
  unfold emit in E0. injection E0 as <- <-. cbn [snd] in H0.
  pose proof (acquire_all_preserves (Z.to_nat count) _ H0) as H1.
  destruct (acquire_all clk mk (Z.to_nat count) _) as [[rs|e|] w1];
    cbn [snd] in *; [|exact H1|exact H1].
  apply release_all_preserves. exact H1.
Qed.

Lemma exec_preserves op w :
  (forall n, op = OpClear n \/ op = OpRestart n ->
     forall w, I w -> I (clear_pool n w).2) ->
  (op = OpShutDown -> forall w, I w -> I (clear_pool (Some (-1)) w).2) ->
  (op = OpStatus -> forall w, I w -> I (get_status w).2) ->
  I w -> I (exec clk mk op w).2.
Proof.
  intros I_clear I_shut I_status Hw.
  destruct op as [|r|n|n| |count|]; cbn [exec].
  - unfold mbind, M_bind. pose proof (I_get w Hw) as H1.
    destruct (get_resource clk mk w) as [[r|e|] w1]; exact H1.
  - apply I_release. exact Hw.
  - apply (I_clear n); [left; reflexivity | exact Hw].
  - unfold restart_pool, mbind, M_bind.
    pose proof (I_call MRestartPool w Hw) as H0. cbn in H0 |- *.
    apply (I_clear n); [right; reflexivity | exact H0].
  - unfold shut_down, mbind, M_bind.
    pose proof (I_call MShutDown w Hw) as H0. cbn in H0 |- *.
    apply I_shut; [reflexivity | exact H0].
  - apply preheat_preserves. exact Hw.
  - unfold mbind, M_bind. pose proof (I_status eq_refl w Hw) as H1.
    destruct (get_status w) as [[r|e|] w1]; exact H1.
Qed.

Lemma exec_all_preserves ops :
  (forall op w, I w -> I (exec clk mk op w).2) ->
  forall w, I w -> I (exec_all clk mk ops w).
Proof.
  intros Hstep.
  induction ops as [|op ops IH]; intros w Hw; [exact Hw|].
  cbn. apply IH. apply Hstep. exact Hw.
Qed.


End Preservation.


End Runs.

(** * The two scenarios of the specification, run on the model *)

(** [Pool(2, 0, 0)]: three [get_resource] without release create three
    resources and serve none; releasing the three stores the first two and
    discards the third. *)
Example scenario_overflow :
  let w := exec_all clk_demo mk_demo
             [OpGet; OpGet; OpGet;
              OpRelease 10%nat; OpRelease 11%nat; OpRelease 12%nat]
             (fresh 2 0 0) in
  count_created (self w) = 3 /\
  count_served_from_pool (self w) = 0 /\
  __pool (self w) = [10%nat; 11%nat] /\
  count_overflow_discard (self w) = 1 /\
  destroyed (trace w) = [12%nat].
Proof. vm_compute. repeat split; reflexivity. Qed.

(** [Pool(10, 3600, 1)]: a resource released and left idle for more than
    one second is killed by the next [get_resource], which creates a
    replacement. *)
Example scenario_stale :
  let w := exec_all clk_slow mk_demo [OpGet; OpRelease 10%nat; OpGet]
             (fresh 10 3600 1) in
  count_killed_stale (self w) = 1 /\
  count_created (self w) = 2 /\
  count_served_from_pool (self w) = 0 /\
  destroyed (trace w) = [10%nat].
Proof. vm_compute. repeat split; reflexivity. Qed.

(** * The claims *)

(** ** C1: release on a pool that stores nothing *)

(** C1, as stated, fails at [pool_size_limit = 0]: the test of
    [release_resource] starts with [not self.pool_size_limit], so a limit
    of 0 means no limit and the resource is stored.  Here a new
    [Pool(0, 3600, 300)] stores resource 5, counts no overflow and destroys
    nothing. *)
Lemma release_resource_limit_zero_stores :
  let w := fresh 0 3600 300 in
  let w' := (release_resource clk_demo 5%nat w).2 in
  pool_size_limit (self w) <= 0 /\
  __pool (self w) = [] /\
  __pool (self w') = [5%nat] /\
  count_overflow_discard (self w') = count_overflow_discard (self w) /\
  destroyed (trace w') = [].
Proof. split; [cbn; lia|]. repeat split; reflexivity. Qed.

(** C1 (amended): for every call of [release_resource(resource)] on a pool
    whose [pool_size_limit] is negative, the call returns normally, the
    resource is not stored (the idle sequence and the stamps of every object
    are unchanged), [count_overflow_discard] grows by exactly 1 and
    [destroy_resource(resource)] is called, once, after the lock is
    released. *)
Theorem release_resource_negative_limit (clk : nat -> Z) (w : World)
    (resource : ObjId) :
  pool_size_limit (self w) < 0 ->
  (release_resource clk resource w).1 = Ret tt /\
  let w' := (release_resource clk resource w).2 in
  __pool (self w') = __pool (self w) /\
  heap w' = heap w /\
  count_overflow_discard (self w') = count_overflow_discard (self w) + 1 /\
  trace w' = trace w ++ discarded_events resource /\
  destroyed (discarded_events resource) = [resource].
Proof.
  intros Hlim.
  assert (has_room (self w) = false) as Hroom.
  { unfold has_room. apply orb_false_iff. split; [apply Z.eqb_neq | apply Z.ltb_ge]; lia. }
  rewrite (release_resource_discarded clk w resource Hroom).
  destruct w as [[l lim age idle c1 c2 c3 c4 c5 c6] h t c tr].
  cbn. repeat split; reflexivity.
Qed.

Lemma release_resource_negative_limit_witness :
  pool_size_limit (self (fresh (-1) 3600 300)) < 0 /\
  count_overflow_discard
    (self (release_resource clk_demo 5%nat (fresh (-1) 3600 300)).2) = 1.
Proof.
  split; [cbn; lia|].
  pose proof (release_resource_negative_limit clk_demo (fresh (-1) 3600 300)
                5%nat ltac:(cbn; lia)) as (_ & _ & _ & H & _).
  exact H.
Defined.

(** ** C10: what [release_resource] writes in the resource *)

(** C10: [release_resource(resource)] touches no object but [resource], and
    in it only the entry [RELEASED] of its [__dict__] (so never [CREATED]);
    it writes that entry only when it stores the resource: either the
    resource is appended to the idle sequence and stamped with the clock, or
    the idle sequence and every stamp are exactly as before and the resource
    is discarded. *)
Theorem release_resource_stamps_only_released (clk : nat -> Z) (w : World)
    (resource : ObjId) :
  let w' := (release_resource clk resource w).2 in
  (forall r key, r <> resource \/ key <> RELEASED ->
     obj_dict (heap w' !!! r) !! key = obj_dict (heap w !!! r) !! key) /\
  (forall r, truthy (heap w' !!! r) = truthy (heap w !!! r)) /\
  (forall r, createdAt (heap w') r = createdAt (heap w) r) /\
  ((__pool (self w') = __pool (self w) ++ [resource] /\
    obj_dict (heap w' !!! resource) !! RELEASED = Some (clk (ticks w)) /\
    count_overflow_discard (self w') = count_overflow_discard (self w))
   \/
   (__pool (self w') = __pool (self w) /\
    heap w' = heap w /\
    count_overflow_discard (self w') = count_overflow_discard (self w) + 1 /\
    destroyed (trace w') = destroyed (trace w) ++ [resource])).
Proof.
  destruct (has_room (self w)) eqn:Hroom.
  - rewrite (release_resource_stored clk w resource Hroom). cbn.
    assert (forall r key, r <> resource \/ key <> RELEASED ->
      obj_dict
        (<[resource := stamp RELEASED (clk (ticks w)) (heap w !!! resource)]>
           (heap w) !!! r) !! key = obj_dict (heap w !!! r) !! key) as Hframe.
    { intros r key Hne. destruct (decide (r = resource)) as [->|Hr].
      - rewrite lookup_total_insert_eq. cbn.
        destruct Hne as [Hne | Hne]; [congruence|].
        rewrite lookup_insert_ne by congruence. reflexivity.
      - rewrite lookup_total_insert_ne by congruence. reflexivity. }
    split; [exact Hframe|]. split; [|split].
    + intros r. destruct (decide (r = resource)) as [->|Hr].
      * rewrite lookup_total_insert_eq. reflexivity.
      * rewrite lookup_total_insert_ne by congruence. reflexivity.
    + intros r. unfold createdAt, dict_get. rewrite Hframe; [reflexivity|].
      right. discriminate.
    + left. split; [reflexivity|]. split; [|reflexivity].
      rewrite lookup_total_insert_eq. cbn. apply lookup_insert_eq.
  - rewrite (release_resource_discarded clk w resource Hroom).
    destruct w as [[l lim age idle c1 c2 c3 c4 c5 c6] h t c tr]. cbn.
    repeat split; try reflexivity. right. repeat split; try reflexivity.
    unfold destroyed. rewrite omap_app. reflexivity.
Qed.

Lemma release_resource_stamps_only_released_witness :
  createdAt
    (heap (release_resource clk_late 3%nat w_mixed).2) 3%nat = 9800 /\
  releasedAt
    (heap (release_resource clk_late 3%nat w_mixed).2) 3%nat = 10000.
Proof.
  destruct (release_resource_stamps_only_released clk_late w_mixed 3%nat)
    as (_ & _ & Hc & Hr).
  split.
  - rewrite Hc. reflexivity.
  - destruct Hr as [(_ & Hr & _) | (Hl & _)].
    + unfold releasedAt, dict_get. rewrite Hr. reflexivity.
    + vm_compute in Hl. discriminate Hl.
Defined.

(** ** C2: [create_resource] raises *)

(** C2, as stated, fails when the idle sequence holds resources that are
    past their age or idle limit: the loop of [get_resource] removes,
    counts and destroys them before [create_resource] is called, and
    nothing puts them back when the hook raises.  Here the only idle
    resource has been idle for 400 s (limit 300 s) and the second call of
    the hook raises. *)
Lemma get_resource_failure_after_eviction :
  let w := exec_all clk_slow mk_once [OpGet; OpRelease 10%nat]
             (fresh 10 3600 300) in
  let w' := (get_resource clk_slow mk_once w).2 in
  (get_resource clk_slow mk_once w).1 = Raise (CreateFailed 7) /\
  __pool (self w) = [10%nat] /\
  __pool (self w') = [] /\
  count_killed_stale (self w') = count_killed_stale (self w) + 1 /\
  destroyed (trace w') = destroyed (trace w) ++ [10%nat].
Proof. vm_compute. repeat split; reflexivity. Qed.

(** C2 (amended): when a call of [get_resource] reaches [create_resource]
    (the count [creates] of calls of the hook advances) and the hook
    raises, the call raises that very exception to its caller; nothing is credited for the failed creation ([count_created],
    [count_served_from_pool], [count_cleared], [count_overflow_discard],
    [pool_size_limit] and the stamps of every object are as at entry); what
    is left of the idle sequence is a suffix of what it was, and when the
    idle sequence was empty at entry the whole pool state is exactly as it
    was.  (Resources the loop evicted before the creation stay evicted and
    counted.) *)
Theorem get_resource_create_fails (clk : nat -> Z) (mk : nat -> CreateOutcome)
    (w : World) (code : nat) :
  mk (creates w) = Raises code ->
  creates (get_resource clk mk w).2 = S (creates w) ->
  (get_resource clk mk w).1 = Raise (CreateFailed code) /\
  let w' := (get_resource clk mk w).2 in
  count_created (self w') = count_created (self w) /\
  count_served_from_pool (self w') = count_served_from_pool (self w) /\
  count_cleared (self w') = count_cleared (self w) /\
  count_overflow_discard (self w') = count_overflow_discard (self w) /\
  pool_size_limit (self w') = pool_size_limit (self w) /\
  heap w' = heap w /\
  (exists gone, __pool (self w) = gone ++ __pool (self w')) /\
  (__pool (self w) = [] -> self w' = self w).
Proof.
  intros Hmk.
  pose proof (get_resource_cases clk mk w) as Hcase.
  destruct Hcase as [pre r post mc mf E Hpre Hr | mc mf Hpre
                    | pre r post mc mf E Hpre Hr]; cbn [fst snd].
  - cbn. intros Hcalled. exfalso. lia.
  - intros _.
    rewrite (create_branch_raises clk mk
               (scanned mc (__pool (self w)) [] pull_none_events 0 w)
               code Hmk).
    split; [reflexivity|].
    destruct w as [[l lim age idle c1 c2 c3 c4 c5 c6] h t c tr].
    cbn. repeat split; try reflexivity; try lia.
    + exists l. rewrite app_nil_r. reflexivity.
    + intros ->. unfold stale_kills, ttl_kills. cbn.
      apply mkPool_eq; try reflexivity; lia.
  - intros _.
    rewrite (create_branch_raises clk mk
               (scanned mc pre post pull_events 0 w) code Hmk).
    split; [reflexivity|].
    destruct w as [[l lim age idle c1 c2 c3 c4 c5 c6] h t c tr].
    cbn in E |- *. subst l. repeat split; try reflexivity; try lia.
    + exists (pre ++ [r]). rewrite <- app_assoc. reflexivity.
    + intros E. destruct pre; discriminate E.
Qed.

Lemma get_resource_create_fails_witness :
  mk_fail (creates (fresh 10 3600 300)) = Raises 7 /\
  creates (get_resource clk_demo mk_fail (fresh 10 3600 300)).2 = 1%nat /\
  (get_resource clk_demo mk_fail (fresh 10 3600 300)).1
    = Raise (CreateFailed 7) /\
  self (get_resource clk_demo mk_fail (fresh 10 3600 300)).2
    = self (fresh 10 3600 300).
Proof.
  split; [reflexivity|]. split; [reflexivity|].
  destruct (get_resource_create_fails clk_demo mk_fail (fresh 10 3600 300) 7
              eq_refl eq_refl) as (Ho & _ & _ & _ & _ & _ & _ & _ & Hself).
  split; [exact Ho | exact (Hself eq_refl)].
Defined.

(** ** C3: one snapshot of the clock per call *)

(** C3, as stated, fails when [max_age] (or [max_idle_time]) is 0: the
    threshold is then 0, not [t0 - 0].  Here the pool has [max_age = 0];
    resource 10 was created at 1001 and released at 1002, and the call
    takes its snapshot at 1003: [createdAt < t0 - max_age], yet the
    resource is served and [count_killed_ttl] does not move. *)
Lemma get_resource_max_age_zero_serves :
  let w := exec_all clk_demo mk_demo [OpGet; OpRelease 10%nat]
             (fresh 10 0 300) in
  let t0 := clk_demo (ticks w) in
  let w' := (get_resource clk_demo mk_demo w).2 in
  __pool (self w) = [10%nat] /\
  createdAt (heap w) 10%nat < t0 - max_age (self w) /\
  (get_resource clk_demo mk_demo w).1 = Ret 10%nat /\
  count_killed_ttl (self w') = count_killed_ttl (self w) /\
  count_served_from_pool (self w') = count_served_from_pool (self w) + 1.
Proof. vm_compute. repeat split; reflexivity. Qed.

(** C3 (amended): a call of [get_resource] reads the clock once at entry,
    [t0 = clk (ticks w)], and judges every pulled resource against the two
    thresholds computed from that one reading: [min_created = t0 - max_age]
    when [max_age] is not 0 and 0 when it is, [min_fresh = t0 -
    max_idle_time] when [max_idle_time] is not 0 and 0 when it is.  It
    pulls the idle sequence from the front; a (true) resource with
    [createdAt < min_created] adds 1 to [count_killed_ttl] and is
    destroyed, else one with [releasedAt < min_fresh] adds 1 to
    [count_killed_stale] and is destroyed, else the resource adds 1 to
    [count_served_from_pool] and is returned, the rest of the sequence
    staying in the pool.  When a resource is served the clock has been read
    exactly once; when the sequence runs dry the only other reading is the
    one that stamps the new resource. *)
Theorem get_resource_single_snapshot (clk : nat -> Z)
    (mk : nat -> CreateOutcome) (w : World) (pre rest : list ObjId) :
  let t0 := clk (ticks w) in
  let min_created := min_created_at t0 (self w) in
  let min_fresh := min_fresh_at t0 (self w) in
  __pool (self w) = pre ++ rest ->
  Forall (doomed (heap w) min_created min_fresh) pre ->
  match rest with
  | [] => True
  | r :: _ => valid (heap w) min_created min_fresh r
  end ->
  let o := (get_resource clk mk w).1 in
  let w' := (get_resource clk mk w).2 in
  count_killed_ttl (self w') =
    count_killed_ttl (self w) + ttl_kills (heap w) min_created pre /\
  count_killed_stale (self w') =
    count_killed_stale (self w) + stale_kills (heap w) min_created pre /\
  destroyed (trace w') = destroyed (trace w) ++ pre /\
  match rest with
  | r :: post =>
    o = Ret r /\
    __pool (self w') = post /\
    count_served_from_pool (self w') = count_served_from_pool (self w) + 1 /\
    count_created (self w') = count_created (self w) /\
    heap w' = heap w /\
    creates w' = creates w /\
    ticks w' = S (ticks w)
  | [] =>
    __pool (self w') = [] /\
    count_served_from_pool (self w') = count_served_from_pool (self w) /\
    creates w' = S (creates w) /\
    (ticks w' <= S (S (ticks w)))%nat /\
    match o with
    | Ret r =>
      mk (creates w) = Returns r /\
      count_created (self w') = count_created (self w) + 1 /\
      createdAt (heap w') r = clk (S (ticks w))
    | _ => count_created (self w') = count_created (self w)
    end
  end.
Proof.
  intros t0 mc mf E Hpre Hrest.
  destruct rest as [|r post].
  - rewrite app_nil_r in E.
    rewrite get_resource_exhausted by (rewrite E; exact Hpre).
    fold t0 mc. rewrite E.
    pose proof (create_branch_frame clk mk
      (scanned mc pre [] pull_none_events 0 w)) as Hf.
    destruct (create_branch clk mk _) as [o w']. cbn [fst snd].
    destruct Hf as (Hl & Hlim & _ & _ & Hc1 & Hc3 & Hc4 & Hc5 & Hc6 &
                    Ho & Hcr & Htr).
    rewrite Hc3, Hc4, Hc6, Hcr, Hl, Htr.
    split; [reflexivity|]. split; [reflexivity|]. split.
    { rewrite destroyed_app, destroyed_scanned by reflexivity.
      destruct o; cbn; rewrite app_nil_r; reflexivity. }
    split; [reflexivity|]. split; [cbn; lia|]. split; [reflexivity|].
    destruct o as [r|e|]; [|destruct e|]; cbn in Ho |- *.
    + destruct Ho as (Hmk & Hc2 & Hh & Ht). split; [rewrite Ht; lia|].
      split; [exact Hmk|]. split; [lia|].
      rewrite Hh. unfold createdAt, dict_get.
      rewrite lookup_total_insert_eq. cbn. rewrite lookup_insert_eq.
      reflexivity.
    + destruct Ho as (Hc2 & _ & _ & Ht). split; [rewrite Ht; lia | lia].
    + destruct Ho as (Hc2 & _ & _ & Ht). split; [rewrite Ht; lia | lia].
    + destruct Ho.
  - rewrite (get_resource_serves clk mk w pre r post E Hpre Hrest).
    fold t0 mc. cbn [fst snd].
    split; [reflexivity|]. split; [reflexivity|]. split.
    { apply destroyed_scanned. reflexivity. }
    repeat split; reflexivity.
Qed.

Lemma get_resource_single_snapshot_witness :
  (get_resource clk_late mk_demo w_mixed).1 = Ret 3%nat /\
  __pool (self (get_resource clk_late mk_demo w_mixed).2) = [4%nat] /\
  count_killed_ttl (self (get_resource clk_late mk_demo w_mixed).2) = 1 /\
  count_killed_stale (self (get_resource clk_late mk_demo w_mixed).2) = 1 /\
  ticks (get_resource clk_late mk_demo w_mixed).2 = 1%nat.
Proof.
  assert (Forall (doomed (heap w_mixed) 6400 9700) [1%nat; 2%nat]) as Hpre.
  { constructor; [split; [reflexivity | left; reflexivity]|].
    constructor; [split; [reflexivity | right; reflexivity]|]. constructor. }
  assert (valid (heap w_mixed) 6400 9700 3%nat) as Hr.
  { repeat split; vm_compute; congruence. }
  pose proof (get_resource_single_snapshot clk_late mk_demo w_mixed
                [1%nat; 2%nat] [3%nat; 4%nat] eq_refl Hpre Hr)
    as (Httl & Hstale & _ & Ho & Hl & _ & _ & _ & _ & Ht).
  repeat split; assumption.
Defined.

(** ** C8: a limit of 0 switches its check off *)

(** C8: with [max_age = 0] a call of [get_resource] never counts a kill in
    [count_killed_ttl], and with [max_idle_time = 0] it never counts one in
    [count_killed_stale], whatever the idle sequence holds; the stamps are
    readings of the wall clock (seconds since the epoch), so none is
    negative. *)
Theorem disabled_check_never_kills (clk : nat -> Z)
    (mk : nat -> CreateOutcome) (w : World) :
  let w' := (get_resource clk mk w).2 in
  (max_age (self w) = 0 ->
   Forall (fun r => 0 <= createdAt (heap w) r) (__pool (self w)) ->
   count_killed_ttl (self w') = count_killed_ttl (self w)) /\
  (max_idle_time (self w) = 0 ->
   Forall (fun r => 0 <= releasedAt (heap w) r) (__pool (self w)) ->
   count_killed_stale (self w') = count_killed_stale (self w)).
Proof.
  destruct (get_resource_effect clk mk w)
    as (pre & Hpre & Httl & Hstale & _ & _ & _ & _ & _ & [rest Hrest] & _).
  cbn zeta. rewrite Httl, Hstale. split; intros Hzero Hpos.
  - rewrite ttl_kills_none; [lia|].
    unfold min_created_at. rewrite Hzero. cbn.
    rewrite Hrest in Hpos. apply Forall_app in Hpos as [Hpos _]. exact Hpos.
  - rewrite (stale_kills_none _ _ _ _ Hpre); [lia|].
    unfold min_fresh_at. rewrite Hzero. cbn.
    rewrite Hrest in Hpos. apply Forall_app in Hpos as [Hpos _]. exact Hpos.
Qed.

Lemma disabled_check_never_kills_witness :
  max_age (self w_unchecked) = 0 /\
  max_idle_time (self w_unchecked) = 0 /\
  count_killed_ttl (self (get_resource clk_late mk_demo w_unchecked).2) = 0 /\
  count_killed_stale (self (get_resource clk_late mk_demo w_unchecked).2) = 0.
Proof.
  split; [reflexivity|]. split; [reflexivity|].
  destruct (disabled_check_never_kills clk_late mk_demo w_unchecked)
    as [Hage Hidle].
  split.
  - apply Hage; [reflexivity|]. repeat constructor; vm_compute; congruence.
  - apply Hidle; [reflexivity|]. repeat constructor; vm_compute; congruence.
Defined.

(** The stamps are readings of the clock: with a clock that never reads
    below 0 no call makes a stamp negative, so no stamp is negative in any
    state a new pool can reach. *)
Lemma after_epoch_stamp (h : gmap ObjId Obj) (r : ObjId) (key : string)
    (t : Z) :
  0 <= t -> after_epoch h ->
  after_epoch (<[r := stamp key t (h !!! r)]> h).
Proof.
  intros Ht Hh x. unfold createdAt, releasedAt, dict_get.
  destruct (decide (x = r)) as [->|Hne].
  - rewrite lookup_total_insert_eq. cbn.
    destruct (Hh r) as [Hc Hr]. unfold createdAt, releasedAt, dict_get in Hc, Hr.
    split.
    + destruct (decide (key = CREATED)) as [->|Hk];
        [rewrite lookup_insert_eq | rewrite lookup_insert_ne by exact Hk];
        cbn; assumption.
    + destruct (decide (key = RELEASED)) as [->|Hk];
        [rewrite lookup_insert_eq | rewrite lookup_insert_ne by exact Hk];
        cbn; assumption.
  - rewrite lookup_total_insert_ne by congruence. apply Hh.
Qed.

Lemma after_epoch_exec_all (clk : nat -> Z) (mk : nat -> CreateOutcome)
    (limit age idle : Z) (ops : list Op) :
  (forall n, 0 <= clk n) ->
  after_epoch (heap (exec_all clk mk ops (fresh limit age idle))).
Proof.
  intros Hclk.
  apply (exec_all_preserves clk mk (fun w => after_epoch (heap w))).
  - intros op w Hw. apply exec_preserves; try assumption.
    + intros m w0 H0. exact H0.
    + intros w0 H0.
      pose proof (get_resource_effect clk mk w0) as Heff.
      destruct (get_resource clk mk w0) as [o w']. cbn [fst snd] in *.
      destruct Heff as (pre & _ & _ & _ & _ & _ & _ & _ & _ & _ & _ & Ho).
      destruct o as [r|e|].
      * destruct Ho as [(_ & _ & _ & _ & -> & _) | (_ & _ & _ & _ & -> & _)];
          [exact H0 | apply after_epoch_stamp; [apply Hclk | exact H0]].
      * destruct Ho as (_ & _ & _ & -> & _). exact H0.
      * destruct Ho.
    + intros r w0 H0. destruct (has_room (self w0)) eqn:Hroom.
      * rewrite release_resource_stored by exact Hroom. cbn.
        apply after_epoch_stamp; [apply Hclk | exact H0].
      * rewrite release_resource_discarded by exact Hroom. exact H0.
    + intros n _ w0 H0. rewrite clear_pool_run. exact H0.
    + intros _ w0 H0. rewrite clear_pool_run. exact H0.
    + intros _ w0 H0. rewrite get_status_run. exact H0.
  - intros x. split; reflexivity.
Qed.

(** ** C7: the idle sequence never outgrows a positive limit *)

Lemma size_ok_get (clk : nat -> Z) (mk : nat -> CreateOutcome) (w : World) :
  size_ok (self w) -> size_ok (self (get_resource clk mk w).2).
Proof.
  destruct (get_resource_effect clk mk w)
    as (pre & _ & _ & _ & Hlim & _ & _ & _ & _ & _ & [gone Hgone] & _).
  unfold size_ok. cbn zeta in *. rewrite Hlim, Hgone, length_app. lia.
Qed.

Lemma size_ok_release (clk : nat -> Z) (r : ObjId) (w : World) :
  size_ok (self w) -> size_ok (self (release_resource clk r w).2).
Proof.
  destruct (has_room (self w)) eqn:Hroom.
  - rewrite release_resource_stored by exact Hroom.
    destruct w as [[l lim age idle c1 c2 c3 c4 c5 c6] h t c tr].
    unfold size_ok, has_room in *. cbn in *. rewrite length_app. cbn.
    apply orb_true_iff in Hroom as [H0 | Hlt]; [apply Z.eqb_eq in H0|
      apply Z.ltb_lt in Hlt]; lia.
  - rewrite release_resource_discarded by exact Hroom.
    destruct w as [[l lim age idle c1 c2 c3 c4 c5 c6] h t c tr].
    unfold size_ok. cbn. trivial.
Qed.

Lemma size_ok_clear (n : option Z) (w : World) :
  size_ok (self (clear_pool n w).2).
Proof.
  rewrite clear_pool_run.
  destruct w as [[l lim age idle c1 c2 c3 c4 c5 c6] h t c tr].
  unfold size_ok. cbn. lia.
Qed.

(** C7: in every state reached from a newly constructed pool (whatever the
    objects, the clock and the trace at that moment) by any sequence of
    calls of [get_resource], [release_resource], [clear_pool],
    [restart_pool], [shut_down], [preheat] and [get_status], with any
    arguments and any behaviour of [create_resource], if
    [pool_size_limit > 0] then the idle sequence is no longer than
    [pool_size_limit]. *)
Theorem idle_never_exceeds_limit (clk : nat -> Z) (mk : nat -> CreateOutcome)
    (limit age idle : Z) (h : gmap ObjId Obj) (t c : nat) (tr : list Event)
    (ops : list Op) :
  let w := exec_all clk mk ops (mkWorld (__init__ limit age idle) h t c tr) in
  0 < pool_size_limit (self w) ->
  Z.of_nat (length (__pool (self w))) <= pool_size_limit (self w).
Proof.
  cbn zeta.
  fold (size_ok (self (exec_all clk mk ops
                         (mkWorld (__init__ limit age idle) h t c tr)))).
  apply (exec_all_preserves clk mk (fun w => size_ok (self w))).
  - intros op w Hw. apply exec_preserves; try assumption.
    + intros m w0 H0. exact H0.
    + intros w0. apply size_ok_get.
    + intros r w0. apply size_ok_release.
    + intros n _ w0 _. apply size_ok_clear.
    + intros _ w0 _. apply size_ok_clear.
    + intros _ w0 H0. rewrite get_status_run. exact H0.
  - unfold size_ok. cbn. lia.
Qed.

Lemma idle_never_exceeds_limit_witness :
  let w := exec_all clk_demo mk_demo [OpPreheat 3; OpGet; OpRelease 10%nat]
             (fresh 2 3600 300) in
  0 < pool_size_limit (self w) /\
  Z.of_nat (length (__pool (self w))) <= pool_size_limit (self w).
Proof.
  split; [reflexivity|].
  apply (idle_never_exceeds_limit clk_demo mk_demo 2 3600 300 ∅ 0%nat 0%nat []
           [OpPreheat 3; OpGet; OpRelease 10%nat]).
  reflexivity.
Defined.

(** ** C6: after [shut_down] *)

Lemma shut_get (clk : nat -> Z) (mk : nat -> CreateOutcome) (w : World) :
  shut (self w) -> shut (self (get_resource clk mk w).2).
Proof.
  destruct (get_resource_effect clk mk w)
    as (pre & _ & _ & _ & Hlim & _ & _ & _ & _ & _ & [gone Hgone] & _).
  unfold shut. cbn zeta in *. rewrite Hlim. intros [Hl Hneg].
  rewrite Hl in Hgone. symmetry in Hgone.
  apply app_eq_nil in Hgone as [_ Hgone]. split; assumption.
Qed.

Lemma shut_release (clk : nat -> Z) (r : ObjId) (w : World) :
  shut (self w) ->
  (release_resource clk r w).1 = Ret tt /\
  let w' := (release_resource clk r w).2 in
  shut (self w') /\
  heap w' = heap w /\
  count_overflow_discard (self w') = count_overflow_discard (self w) + 1 /\
  trace w' = trace w ++ discarded_events r.
Proof.
  intros [Hl Hneg].
  assert (has_room (self w) = false) as Hroom.
  { unfold has_room. apply orb_false_iff.
    split; [apply Z.eqb_neq | apply Z.ltb_ge]; lia. }
  rewrite release_resource_discarded by exact Hroom.
  destruct w as [[l lim age idle c1 c2 c3 c4 c5 c6] h t c tr].
  cbn in *. repeat split; assumption || reflexivity.
Qed.

(** C6, as stated, fails: the state after [shut_down()] is not final.  A
    later [restart_pool(5)] assigns a new limit, and the next
    [release_resource] stores the resource: the idle sequence is not empty,
    [count_overflow_discard] has not moved and nothing was destroyed. *)
Lemma shut_down_is_undone_by_restart_pool :
  let w0 := (shut_down (fresh 10 3600 300)).2 in
  let w1 := exec_all clk_demo mk_demo [OpRestart (Some 5)] w0 in
  let w2 := (release_resource clk_demo 7%nat w1).2 in
  __pool (self w0) = [] /\ pool_size_limit (self w0) = -1 /\
  __pool (self w2) = [7%nat] /\
  count_overflow_discard (self w2) = count_overflow_discard (self w1) /\
  destroyed (trace w2) = destroyed (trace w1).
Proof. vm_compute. repeat split; reflexivity. Qed.

(** C6 (amended): once [shut_down()] has run, and as long as no later call
    assigns a new limit (that is what [restart_pool(n)] and [clear_pool(n)]
    do), in every state reached by later calls of [get_resource],
    [release_resource], [preheat], [get_status], [shut_down],
    [clear_pool()] and [restart_pool()] the idle sequence is empty and the
    limit is -1; there every [release_resource(r)] returns normally, stores
    nothing, adds exactly 1 to [count_overflow_discard] and calls
    [destroy_resource(r)], and [get_resource] still calls [create_resource]
    and returns the object the hook returns, counting it in
    [count_created]. *)
Theorem shut_down_is_final (clk : nat -> Z) (mk : nat -> CreateOutcome)
    (w : World) (ops : list Op) :
  forallb keeps_limit ops = true ->
  let w1 := exec_all clk mk ops (shut_down w).2 in
  __pool (self w1) = [] /\
  pool_size_limit (self w1) = -1 /\
  (forall r,
     (release_resource clk r w1).1 = Ret tt /\
     let w2 := (release_resource clk r w1).2 in
     __pool (self w2) = [] /\
     count_overflow_discard (self w2) = count_overflow_discard (self w1) + 1 /\
     trace w2 = trace w1 ++ discarded_events r /\
     destroyed (trace w2) = destroyed (trace w1) ++ [r]) /\
  (forall r, mk (creates w1) = Returns r ->
     (get_resource clk mk w1).1 = Ret r /\
     let w2 := (get_resource clk mk w1).2 in
     __pool (self w2) = [] /\
     creates w2 = S (creates w1) /\
     count_created (self w2) = count_created (self w1) + 1 /\
     count_served_from_pool (self w2) = count_served_from_pool (self w1)).
Proof.
  intros Hops. cbn zeta.
  assert (shut (self (exec_all clk mk ops (shut_down w).2))) as [Hl Hlim].
  { assert (shut (self (shut_down w).2)) as H0.
    { unfold shut_down, mbind, M_bind. cbn [emit]. rewrite clear_pool_run.
      destruct w as [[l lim age idle c1 c2 c3 c4 c5 c6] h t c tr].
      split; reflexivity. }
    revert H0. generalize ((shut_down w).2). clear w.
    induction ops as [|op ops IH]; intros w Hw; [exact Hw|].
    cbn in Hops. apply andb_true_iff in Hops as [Hop Hops].
    cbn [exec_all fold_left]. apply (IH Hops).
    apply (exec_preserves clk mk (fun w => shut (self w))); try assumption.
    - intros m w0 H0. exact H0.
    - intros w0. apply shut_get.
    - intros r w0 H0. apply shut_release. exact H0.
    - intros n Hn w0 [H0 H1].
      assert (n = None) as ->
        by (destruct Hn as [-> | ->]; destruct n; [discriminate | reflexivity
                                                  | discriminate | reflexivity]).
      rewrite clear_pool_run.
      destruct w0 as [[l lim age idle c1 c2 c3 c4 c5 c6] h t c tr].
      split; [reflexivity | exact H1].
    - intros _ w0 _. rewrite clear_pool_run.
      destruct w0 as [[l lim age idle c1 c2 c3 c4 c5 c6] h t c tr].
      split; reflexivity.
    - intros _ w0 H0. rewrite get_status_run. exact H0. }
  set (w1 := exec_all clk mk ops (shut_down w).2) in *.
  split; [exact Hl|]. split; [exact Hlim|]. split.
  - intros r.
    destruct (shut_release clk r w1 (conj Hl Hlim))
      as (Ho & [Hl2 _] & _ & Hc & Htr).
    split; [exact Ho|]. cbn zeta. repeat split; try assumption.
    rewrite Htr, destroyed_app. reflexivity.
  - intros r Hmk.
    assert (Forall (doomed (heap w1) (min_created_at (clk (ticks w1)) (self w1))
                      (min_fresh_at (clk (ticks w1)) (self w1)))
              (__pool (self w1))) as Hpre by (rewrite Hl; constructor).
    rewrite (get_resource_exhausted clk mk w1 Hpre).
    rewrite (create_branch_returns clk mk (scanned _ _ [] pull_none_events 0 w1)
               r Hmk). cbn [fst snd].
    destruct w1 as [[l lim age idle c1 c2 c3 c4 c5 c6] h t c tr].
    cbn in *. subst l. repeat split; reflexivity || lia.
Qed.

Lemma shut_down_is_final_witness :
  let w1 := exec_all clk_demo mk_demo
              [OpGet; OpRelease 10%nat; OpPreheat 2; OpStatus]
              (shut_down (exec_all clk_demo mk_demo [OpPreheat 2]
                            (fresh 10 3600 300))).2 in
  __pool (self w1) = [] /\ count_overflow_discard (self w1) = 3 /\
  count_overflow_discard (self (release_resource clk_demo 10%nat w1).2) = 4.
Proof.
  cbn zeta.
  destruct (shut_down_is_final clk_demo mk_demo
              (exec_all clk_demo mk_demo [OpPreheat 2] (fresh 10 3600 300))
              [OpGet; OpRelease 10%nat; OpPreheat 2; OpStatus] eq_refl)
    as (Hl & _ & Hrel & _).
  split; [exact Hl|]. split; [reflexivity|].
  destruct (Hrel 10%nat) as (_ & _ & Hc & _). rewrite Hc. reflexivity.
Defined.

(** ** C5: [preheat] *)

(** On an empty pool with a hook that returns, [get_resource] creates. *)
Lemma get_resource_on_empty (clk : nat -> Z) (mk : nat -> CreateOutcome)
    (w : World) (r : ObjId) :
  __pool (self w) = [] -> mk (creates w) = Returns r ->
  (get_resource clk mk w).1 = Ret r /\
  let w' := (get_resource clk mk w).2 in
  __pool (self w') = [] /\
  pool_size_limit (self w') = pool_size_limit (self w) /\
  count_created (self w') = count_created (self w) + 1 /\
  creates w' = S (creates w) /\
  called (trace w') = called (trace w) ++ [MGetResource].
Proof.
  intros Hl Hmk.
  assert (Forall (doomed (heap w) (min_created_at (clk (ticks w)) (self w))
                    (min_fresh_at (clk (ticks w)) (self w)))
            (__pool (self w))) as Hpre by (rewrite Hl; constructor).
  rewrite (get_resource_exhausted clk mk w Hpre).
  rewrite (create_branch_returns clk mk (scanned _ _ [] pull_none_events 0 w)
             r Hmk). cbn [fst snd].
  split; [reflexivity|]. cbn zeta.
  assert (called (trace (scanned (min_created_at (clk (ticks w)) (self w))
            (__pool (self w)) [] pull_none_events 0 w))
          = called (trace w) ++ [MGetResource]) as Hcalled
    by (apply called_scanned; reflexivity).
  destruct w as [[l lim age idle c1 c2 c3 c4 c5 c6] h t c tr].
  cbn in Hl. subst l. cbn [trace]. rewrite called_app, Hcalled.
  cbn. rewrite app_nil_r. repeat split; reflexivity.
Qed.

Lemma acquire_all_on_empty (clk : nat -> Z) (mk : nat -> CreateOutcome)
    (n : nat) : forall w,
  __pool (self w) = [] ->
  (forall k, exists r, mk k = Returns r) ->
  exists rs,
    (acquire_all clk mk n w).1 = Ret rs /\
    length rs = n /\
    let w' := (acquire_all clk mk n w).2 in
    __pool (self w') = [] /\
    pool_size_limit (self w') = pool_size_limit (self w) /\
    count_created (self w') = count_created (self w) + Z.of_nat n /\
    creates w' = (creates w + n)%nat /\
    called (trace w') = called (trace w) ++ replicate n MGetResource.
Proof.
  induction n as [|n IH]; intros w Hl Hmk.
  - exists []. cbn. rewrite app_nil_r, Z.add_0_r, Nat.add_0_r.
    repeat split; assumption || reflexivity.
  - destruct (Hmk (creates w)) as [r Hr].
    destruct (get_resource_on_empty clk mk w r Hl Hr)
      as (Ho & Hl1 & Hlim1 & Hc1 & Hcr1 & Htr1).
    cbn [acquire_all]. unfold mbind, M_bind.
    destruct (get_resource clk mk w) as [o w1]. cbn [fst snd] in *. subst o.
    destruct (IH w1 Hl1 Hmk) as (rs & Hrs & Hlen & Hl2 & Hlim2 & Hc2 & Hcr2 & Htr2).
    destruct (acquire_all clk mk n w1) as [o w2]. cbn [fst snd] in *. subst o.
    exists (r :: rs). cbn [fst snd]. split; [reflexivity|].
    split; [cbn [length]; lia|]. cbn zeta in *.
    unfold mret, M_ret. cbn [fst snd].
    split; [exact Hl2|]. split; [congruence|]. split; [lia|]. split; [lia|].
    rewrite Htr2, Htr1, <- app_assoc. reflexivity.
Qed.

(** The length of the idle sequence after [n] more releases. *)
Lemma release_all_run (clk : nat -> Z) (rs : list ObjId) : forall w,
  (release_all clk rs w).1 = Ret tt /\
  let w' := (release_all clk rs w).2 in
  pool_size_limit (self w') = pool_size_limit (self w) /\
  count_created (self w') = count_created (self w) /\
  creates w' = creates w /\
  called (trace w') =
    called (trace w) ++ replicate (length rs) MReleaseResource /\
  Z.of_nat (length (__pool (self w'))) =
    let k := Z.of_nat (length (__pool (self w))) in
    let n := Z.of_nat (length rs) in
    if pool_size_limit (self w) =? 0 then k + n
    else Z.max k (Z.min (k + n) (pool_size_limit (self w))).
Proof.
  induction rs as [|r rs IH]; intros w.
  - cbn. rewrite app_nil_r. repeat split; try reflexivity.
    destruct (pool_size_limit (self w) =? 0); lia.
  - cbn [release_all]. unfold mbind, M_bind.
    assert (exists w1, release_resource clk r w = (Ret tt, w1) /\
              pool_size_limit (self w1) = pool_size_limit (self w) /\
              count_created (self w1) = count_created (self w) /\
              creates w1 = creates w /\
              called (trace w1) = called (trace w) ++ [MReleaseResource] /\
              Z.of_nat (length (__pool (self w1))) =
                let k := Z.of_nat (length (__pool (self w))) in
                if pool_size_limit (self w) =? 0 then k + 1
                else Z.max k (Z.min (k + 1) (pool_size_limit (self w))))
      as (w1 & -> & Hlim1 & Hc1 & Hcr1 & Htr1 & Hlen1).
    { destruct (has_room (self w)) eqn:Hroom.
      - rewrite release_resource_stored by exact Hroom.
        eexists. split; [reflexivity|].
        destruct w as [[l lim age idle c1 c2 c3 c4 c5 c6] h t c tr].
        unfold has_room in Hroom. cbn in *.
        rewrite called_app, length_app. repeat split; try reflexivity.
        + f_equal. unfold stored_events. destruct (lim =? 0); reflexivity.
        + cbn [length]. destruct (Z.eqb_spec lim 0); [lia|].
          cbn in Hroom. apply Z.ltb_lt in Hroom. lia.
      - rewrite release_resource_discarded by exact Hroom.
        eexists. split; [reflexivity|].
        destruct w as [[l lim age idle c1 c2 c3 c4 c5 c6] h t c tr].
        unfold has_room in Hroom. cbn in *.
        rewrite called_app. repeat split; try reflexivity.
        apply orb_false_iff in Hroom as [H0 Hlt].
        rewrite H0. apply Z.ltb_ge in Hlt. lia. }
    destruct (IH w1) as (Ho & Hlim2 & Hc2 & Hcr2 & Htr2 & Hlen2).
    destruct (release_all clk rs w1) as [o w2]. cbn [fst snd] in *. subst o.
    split; [reflexivity|].
    rewrite Hlim2, Hlim1, Hc2, Hc1, Hcr2, Hcr1, Htr2, Htr1, <- app_assoc.
    repeat split; try reflexivity.
    rewrite Hlen2, Hlen1, Hlim1. cbn zeta. cbn [length].
    destruct (Z.eqb_spec (pool_size_limit (self w)) 0); lia.
Qed.

(** C5, as stated, fails on a pool that already holds a valid idle
    resource: the calls of [get_resource] that [preheat] makes serve it
    instead of creating.  Here a second [preheat(1)] creates nothing. *)
Lemma preheat_recycles_idle_resources :
  let w := exec_all clk_demo mk_demo [OpPreheat 1] (fresh 10 3600 300) in
  let w' := (preheat clk_demo mk_demo 1 w).2 in
  __pool (self w) = [10%nat] /\
  count_created (self w') = count_created (self w) /\
  count_served_from_pool (self w') = count_served_from_pool (self w) + 1.
Proof. vm_compute. repeat split; reflexivity. Qed.

(** C5 (amended): on a pool whose idle sequence is empty, and with a
    [create_resource] that returns an object at every call, [preheat(count)]
    for [count >= 0] returns normally after exactly [count] calls of
    [get_resource] followed by [count] calls of [release_resource], in that
    order; [create_resource] is called [count] times and [count_created]
    grows by exactly [count]; the idle sequence is left with [min(count,
    pool_size_limit)] resources when [pool_size_limit > 0] (with all
    [count] when the limit is 0, with none when it is negative). *)
Theorem preheat_on_empty_pool (clk : nat -> Z) (mk : nat -> CreateOutcome)
    (w : World) (count : Z) :
  0 <= count ->
  __pool (self w) = [] ->
  (forall k, exists r, mk k = Returns r) ->
  (preheat clk mk count w).1 = Ret tt /\
  let w' := (preheat clk mk count w).2 in
  let n := Z.to_nat count in
  called (trace w') =
    called (trace w) ++ MPreheat :: replicate n MGetResource
      ++ replicate n MReleaseResource /\
  creates w' = (creates w + n)%nat /\
  count_created (self w') = count_created (self w) + count /\
  Z.of_nat (length (__pool (self w'))) =
    if pool_size_limit (self w) =? 0 then count
    else if pool_size_limit (self w) <? 0 then 0
    else Z.min count (pool_size_limit (self w)).
Proof.
  intros Hcount Hl Hmk. unfold preheat, mbind, M_bind. cbn [emit].
  set (w0 := mkWorld (self w) (heap w) (ticks w) (creates w)
               (trace w ++ [EvCall MPreheat])).
  destruct (acquire_all_on_empty clk mk (Z.to_nat count) w0 Hl Hmk)
    as (rs & Hrs & Hlen & Hl1 & Hlim1 & Hc1 & Hcr1 & Htr1).
  destruct (acquire_all clk mk (Z.to_nat count) w0) as [o w1].
  cbn [fst snd] in *. subst o.
  destruct (release_all_run clk rs w1) as (Ho & Hlim2 & Hc2 & Hcr2 & Htr2 & Hlen2).
  split; [exact Ho|]. cbn zeta in *.
  rewrite Htr2, Htr1, Hcr2, Hcr1, Hc2, Hc1, Hlen2, Hl1, Hlim1, Hlen.
  subst w0. cbn [trace self creates length]. rewrite called_app. cbn.
  rewrite <- !app_assoc. cbn.
  repeat split; try reflexivity; try lia.
  destruct (Z.eqb_spec (pool_size_limit (self w)) 0); [lia|].
  destruct (Z.ltb_spec (pool_size_limit (self w)) 0); lia.
Qed.

Lemma preheat_on_empty_pool_witness :
  let w' := (preheat clk_demo mk_demo 3 (fresh 2 3600 300)).2 in
  0 <= 3 /\
  count_created (self w') = 3 /\ Z.of_nat (length (__pool (self w'))) = 2.
Proof.
  cbn zeta. split; [lia|].
  destruct (preheat_on_empty_pool clk_demo mk_demo (fresh 2 3600 300) 3)
    as (_ & _ & _ & Hc & Hlen).
  - lia.
  - reflexivity.
  - intros k. exists (10 + k)%nat. reflexivity.
  - split; [exact Hc | exact Hlen].
Defined.

(** ** C4: created resources are held, idle or destroyed *)

Lemma remove_one_length r l rest :
  remove_one r l = Some rest -> length l = S (length rest).
Proof.
  revert rest. induction l as [|x l IH]; intros rest; cbn; [discriminate|].
  destruct (decide (x = r)); [intros [= <-]; reflexivity|].
  destruct (remove_one r l) as [l''|]; [|discriminate].
  intros [= <-]. cbn. f_equal. apply IH. reflexivity.
Qed.

Lemma remove_one_Forall (P : ObjId -> Prop) r l rest :
  remove_one r l = Some rest -> Forall P l -> P r /\ Forall P rest.
Proof.
  revert rest. induction l as [|x l IH]; intros rest; cbn; [discriminate|].
  intros Hrm Hl. apply Forall_cons in Hl as [Hx Hl].
  destruct (decide (x = r)) as [->|Hne].
  - injection Hrm as <-. split; assumption.
  - destruct (remove_one r l) as [l''|]; [|discriminate].
    injection Hrm as <-. destruct (IH l'' eq_refl Hl) as [Hr Hrest].
    split; [exact Hr|]. apply Forall_cons. split; assumption.
Qed.

Lemma truthy_stamped (h : gmap ObjId Obj) r key t x :
  truthy (<[r := stamp key t (h !!! r)]> h !!! x) = truthy (h !!! x).
Proof.
  destruct (decide (x = r)) as [->|Hne].
  - rewrite lookup_total_insert_eq. reflexivity.
  - rewrite lookup_total_insert_ne by congruence. reflexivity.
Qed.

Lemma Forall_truthy_stamped (h : gmap ObjId Obj) r key t (l : list ObjId) :
  Forall (fun x => truthy (h !!! x) = true) l ->
  Forall (fun x => truthy (<[r := stamp key t (h !!! r)]> h !!! x) = true) l.
Proof.
  intros Hl. eapply Forall_impl; [exact Hl|].
  intros x Hx. cbn. rewrite truthy_stamped. exact Hx.
Qed.

Lemma accounted_call (clk : nat -> Z) (mk : nat -> CreateOutcome)
    (c : Call) (s s' : Sys) :
  call clk mk c s = Some s' -> accounted mk s -> accounted mk s'.
Proof.
  destruct s as [w hd]. unfold accounted. cbn [world held].
  destruct c as [|r]; cbn [call world held].
  - pose proof (get_resource_effect clk mk w) as Heff.
    destruct (get_resource clk mk w) as [o w']. cbn [fst snd] in Heff.
    destruct Heff as (pre & Hpre & Httl & Hstale & _ & _ & _ & _ & Hov & _ & _ & Ho).
    pose proof (kills_total (heap w) (min_created_at (clk (ticks w)) (self w)) pre)
      as Hk.
    intros Hs' (Hmk & Htruthy & Hbal).
    apply Forall_app in Htruthy as [Hheld Hidle].
    assert (forall P : Prop,
      ((__pool (self w) = pre /\ __pool (self w') = []) \/
       (exists x, __pool (self w) = pre ++ x :: __pool (self w') /\
                  truthy (heap w !!! x) = false)) ->
      (__pool (self w) = pre -> __pool (self w') = [] -> P) -> P) as Hdry.
    { intros P [[H1 H2] | (x & Hl & Hx)] HP; [exact (HP H1 H2)|].
      rewrite Hl in Hidle. apply Forall_app in Hidle as [_ Hidle].
      apply Forall_cons in Hidle as [Hx' _]. rewrite Hx' in Hx. discriminate. }
    destruct o as [r|e|].
    + injection Hs' as <-. cbn [world held length].
      destruct Ho as [(Hl & _ & Hsv & Hcr & Hh & _)
                     | (Hd & Hr & Hsv & Hcr & Hh & _)].
      * rewrite Hh, Hov, Httl, Hstale, Hcr. split; [exact Hmk|].
        rewrite Hl in Hidle. apply Forall_app in Hidle as [_ Hidle].
        apply Forall_cons in Hidle as [Hr Hidle].
        split.
        { apply Forall_cons. split; [exact Hr|].
          apply Forall_app. split; assumption. }
        rewrite Hl, length_app in Hbal. cbn in Hbal. lia.
      * apply (Hdry _ Hd). intros Hl Hl'.
        rewrite Hh, Hov, Httl, Hstale, Hcr, Hl'.
        split; [intros n x Hx; rewrite truthy_stamped; exact (Hmk n x Hx)|].
        split.
        { rewrite app_nil_r. apply Forall_truthy_stamped.
          apply Forall_cons. split; [exact (Hmk _ r Hr) | exact Hheld]. }
        rewrite Hl in Hbal. cbn. lia.
    + injection Hs' as <-. cbn [world held].
      destruct Ho as (Hd & Hsv & Hcr & Hh & _).
      apply (Hdry _ Hd). intros Hl Hl'.
      rewrite Hh, Hov, Httl, Hstale, Hcr, Hl'.
      split; [exact Hmk|].
      split; [rewrite app_nil_r; exact Hheld|].
      rewrite Hl in Hbal. cbn. lia.
    + destruct Ho.
  - destruct (remove_one r hd) as [rest|] eqn:Hrm; [|discriminate].
    intros [= <-] (Hmk & Htruthy & Hbal). cbn [world held].
    apply Forall_app in Htruthy as [Hheld Hidle].
    destruct (remove_one_Forall _ r hd rest Hrm Hheld) as [Hr Hrest].
    apply remove_one_length in Hrm.
    destruct (has_room (self w)) eqn:Hroom.
    + rewrite release_resource_stored by exact Hroom.
      destruct w as [[l lim age idle c1 c2 c3 c4 c5 c6] h t c tr].
      cbn in *.
      split; [intros n x Hx; rewrite truthy_stamped; exact (Hmk n x Hx)|].
      split.
      { apply Forall_truthy_stamped. apply Forall_app. split; [exact Hrest|].
        apply Forall_app. split; [exact Hidle|].
        apply Forall_cons. split; [exact Hr | constructor]. }
      rewrite length_app. cbn. lia.
    + rewrite release_resource_discarded by exact Hroom.
      destruct w as [[l lim age idle c1 c2 c3 c4 c5 c6] h t c tr].
      cbn in *. split; [exact Hmk|].
      split; [apply Forall_app; split; assumption|]. lia.
Qed.

Lemma accounted_calls (clk : nat -> Z) (mk : nat -> CreateOutcome)
    (cs : list Call) : forall s s',
  calls clk mk cs s = Some s' -> accounted mk s -> accounted mk s'.
Proof.
  induction cs as [|c cs IH]; intros s s'; cbn [calls].
  - intros [= <-] Hs. exact Hs.
  - destruct (call clk mk c s) as [s1|] eqn:Hc; [|discriminate].
    intros Hcs Hs. apply (IH s1 s' Hcs). exact (accounted_call clk mk c s s1 Hc Hs).
Qed.

(** C4, as stated, fails: [count_created - count_served_from_pool] is not
    the number of resources held or idle.  A caller gets a resource (it is
    created), releases it and gets it again (it is served): nothing was
    evicted, one resource is held, yet [count_created -
    count_served_from_pool = 0]. *)
Lemma created_minus_served_is_not_held_plus_idle :
  match calls clk_demo mk_demo [Acquire; Release 10%nat; Acquire]
          (mkSys (fresh 10 3600 300) []) with
  | Some s =>
    let p := self (world s) in
    count_killed_ttl p = 0 /\ count_killed_stale p = 0 /\
    held s = [10%nat] /\ __pool p = [] /\
    count_created p = 1 /\ count_served_from_pool p = 1 /\
    count_created p - count_served_from_pool p
      <> Z.of_nat (length (held s)) + Z.of_nat (length (__pool p))
  | None => False
  end.
Proof. vm_compute. repeat split; try reflexivity. discriminate. Qed.

(** The balance of created against discarded resources needs the objects
    [create_resource] returns to be true: a false object is created and
    released like any other, but [get_resource] takes it out of the pool,
    drops it without destroying it and creates another, so that two
    resources were created, none discarded or evicted, and only one is held
    or idle. *)
Lemma false_resource_leaves_the_books :
  match calls clk_demo mk_demo [Acquire; Release 10%nat; Acquire]
          (mkSys (mkWorld (__init__ 10 3600 300)
                    (<[10%nat := mkObj false ∅]> ∅) 0 0 []) []) with
  | Some s =>
    let p := self (world s) in
    count_killed_ttl p = 0 /\ count_killed_stale p = 0 /\
    held s = [11%nat] /\ __pool p = [] /\
    count_created p = 2 /\ count_overflow_discard p = 0
  | None => False
  end.
Proof. vm_compute. repeat split; reflexivity. Qed.

(** C4 (amended): (1) when every object [create_resource] returns is true,
    then for every sequence of [get_resource] and [release_resource] calls
    on a new pool, by callers that release only what they hold, during
    which no eviction threshold is triggered ([count_killed_ttl] and
    [count_killed_stale] still 0), [count_created - count_overflow_discard]
    is the number of resources held by callers plus the number idle in the
    pool; (2) [get_resource] never creates a resource while a valid one is
    idle: when the idle objects are true and one of them passes both
    checks, the call returns an idle resource that passes both checks,
    [create_resource] is not called and [count_created] does not move. *)
Theorem created_resources_are_held_or_idle (clk : nat -> Z)
    (mk : nat -> CreateOutcome) :
  (forall (limit age idle : Z) (h : gmap ObjId Obj) (t c : nat)
          (tr : list Event) (cs : list Call) (s : Sys),
     (forall n r, mk n = Returns r -> truthy (h !!! r) = true) ->
     calls clk mk cs (mkSys (mkWorld (__init__ limit age idle) h t c tr) [])
       = Some s ->
     let p := self (world s) in
     count_killed_ttl p = 0 -> count_killed_stale p = 0 ->
     count_created p - count_overflow_discard p =
       Z.of_nat (length (held s)) + Z.of_nat (length (__pool p)))
  /\
  (forall w : World,
     let mc := min_created_at (clk (ticks w)) (self w) in
     let mf := min_fresh_at (clk (ticks w)) (self w) in
     Forall (fun x => truthy (heap w !!! x) = true) (__pool (self w)) ->
     Exists (valid (heap w) mc mf) (__pool (self w)) ->
     exists r,
       (get_resource clk mk w).1 = Ret r /\
       r ∈ __pool (self w) /\
       valid (heap w) mc mf r /\
       let w' := (get_resource clk mk w).2 in
       creates w' = creates w /\
       count_created (self w') = count_created (self w) /\
       count_served_from_pool (self w') =
         count_served_from_pool (self w) + 1).
Proof.
  split.
  - intros limit age idle h t c tr cs s Hmk Hcs p Httl Hstale.
    assert (accounted mk
              (mkSys (mkWorld (__init__ limit age idle) h t c tr) [])) as H0.
    { unfold accounted. cbn. split; [exact Hmk|].
      split; [constructor | reflexivity]. }
    destruct (accounted_calls clk mk cs _ s Hcs H0) as (_ & _ & Hbal).
    fold p in Hbal. lia.
  - intros w mc mf Htruthy Hvalid.
    pose proof (get_resource_effect clk mk w) as Heff.
    destruct (get_resource clk mk w) as [o w']. cbn [fst snd] in *.
    destruct Heff as (pre & Hpre & _ & _ & _ & _ & _ & _ & _ & _ & _ & Ho).
    fold mc mf in Hpre, Ho.
    assert (((__pool (self w) = pre /\ __pool (self w') = []) \/
             (exists x, __pool (self w) = pre ++ x :: __pool (self w') /\
                        truthy (heap w !!! x) = false)) -> False) as Hdry.
    { intros [[Hl _] | (x & Hl & Hx)].
      - rewrite Hl in Hvalid. apply Exists_exists in Hvalid as (x & Hin & Hx).
        rewrite Forall_forall in Hpre. destruct (Hpre x Hin) as [_ Hd].
        destruct Hx as (_ & Hc & Hf). lia.
      - rewrite Forall_forall in Htruthy.
        rewrite Htruthy in Hx; [discriminate|].
        rewrite Hl. apply elem_of_app. right. left. }
    destruct o as [r|e|].
    + destruct Ho as [(Hl & Hr & Hsv & Hcr & _ & Hn) | (Hd & _)];
        [|destruct (Hdry Hd)].
      exists r. split; [reflexivity|]. split.
      { rewrite Hl. apply elem_of_app. right. left. }
      split; [exact Hr|]. cbn zeta. repeat split; assumption.
    + destruct Ho as (Hd & _). destruct (Hdry Hd).
    + destruct Ho.
Qed.

Lemma created_resources_are_held_or_idle_witness :
  match calls clk_demo mk_demo
          [Acquire; Acquire; Release 10%nat; Acquire; Release 11%nat]
          (mkSys (mkWorld (__init__ 1 3600 300) ∅ 0 0 []) []) with
  | Some s =>
    count_created (self (world s)) - count_overflow_discard (self (world s))
    = Z.of_nat (length (held s)) + Z.of_nat (length (__pool (self (world s))))
  | None => False
  end /\
  (exists r, (get_resource clk_late mk_demo w_unchecked).1 = Ret r).
Proof.
  destruct (created_resources_are_held_or_idle clk_demo mk_demo) as [H1 _].
  destruct (created_resources_are_held_or_idle clk_late mk_demo) as [_ H2].
  split.
  - destruct (calls clk_demo mk_demo
                [Acquire; Acquire; Release 10%nat; Acquire; Release 11%nat]
                (mkSys (mkWorld (__init__ 1 3600 300) ∅ 0 0 []) []))
      as [s|] eqn:E.
    + apply (fun Hmk => H1 1 3600 300 ∅ 0%nat 0%nat [] _ s Hmk E);
        [intros n r _; reflexivity | |];
        vm_compute in E; injection E as <-; reflexivity.
    + vm_compute in E. discriminate E.
  - destruct (H2 w_unchecked) as (r & Hr & _).
    + repeat constructor.
    + constructor. repeat split; vm_compute; congruence.
    + exists r. exact Hr.
Defined.

(** ** C9: the lock *)

Lemma lock_check_app sh b tr1 tr2 :
  lock_check sh b (tr1 ++ tr2) =
  match lock_check sh b tr1 with
  | Some b' => lock_check sh b' tr2
  | None => None
  end.
Proof.
  revert b. induction tr1 as [|e tr1 IH]; intros b; [reflexivity|].
  cbn. destruct (lock_step sh b e); [apply IH | reflexivity].
Qed.

Lemma disciplined_app sh tr1 tr2 :
  disciplined sh tr1 -> disciplined sh tr2 -> disciplined sh (tr1 ++ tr2).
Proof.
  unfold disciplined. intros H1 H2. rewrite lock_check_app, H1. exact H2.
Qed.

Lemma disciplined_nil sh : disciplined sh [].
Proof. reflexivity. Qed.

Section Discipline.

(** Any choice of guarded attributes that leaves the counters out. *)
Variable sh : Field -> bool.
Hypothesis sh_count : forall c, sh (FCount c) = false.

Ltac discipline :=
  unfold disciplined; cbn; rewrite ?andb_false_r, ?sh_count; cbn;
  try reflexivity.

Lemma disciplined_call m : disciplined sh [EvCall m].
Proof. reflexivity. Qed.

Lemma disciplined_pull : disciplined sh pull_events.
Proof. discipline. Qed.

Lemma disciplined_pull_none : disciplined sh pull_none_events.
Proof. discipline. Qed.

Lemma disciplined_incr c : disciplined sh (incr_events c).
Proof. discipline. Qed.

Lemma disciplined_create o :
  disciplined sh
    (EvCreate :: match o : Outcome ObjId with
                 | Ret _ => incr_events CCreated
                 | _ => []
                 end).
Proof. destruct o; discipline. Qed.

Lemma disciplined_destroy l : disciplined sh (map EvDestroy l).
Proof. induction l as [|r l IH]; [reflexivity | exact IH]. Qed.

Lemma disciplined_kill h mc pre : disciplined sh (kill_events h mc pre).
Proof.
  induction pre as [|r pre IH]; [reflexivity|]. cbn [kill_events].
  apply disciplined_app; [apply disciplined_pull|].
  apply disciplined_app; [apply disciplined_incr | exact IH].
Qed.

Lemma disciplined_stored lim : disciplined sh (stored_events lim).
Proof. unfold stored_events. destruct (lim =? 0); discipline. Qed.

Lemma disciplined_discarded r : disciplined sh (discarded_events r).
Proof. discipline. Qed.

Lemma disciplined_clear n l :
  disciplined sh (clear_events n ++ map EvDestroy l).
Proof.
  apply disciplined_app; [|apply disciplined_destroy].
  destruct n; discipline.
Qed.

Lemma disciplined_scanned mc pre rest evs served w :
  disciplined sh evs ->
  exists evs',
    trace (scanned mc pre rest evs served w) = trace w ++ evs' /\
    disciplined sh evs'.
Proof.
  intros Hevs. eexists. split; [reflexivity|].
  apply (disciplined_app sh [EvCall MGetResource]); [reflexivity|].
  apply disciplined_app; [apply disciplined_kill|].
  apply disciplined_app; [exact Hevs | apply disciplined_destroy].
Qed.

Variable clk : nat -> Z.
Variable mk : nat -> CreateOutcome.

Lemma disciplined_create_branch w :
  exists evs,
    trace (create_branch clk mk w).2 = trace w ++ evs /\ disciplined sh evs.
Proof.
  pose proof (create_branch_frame clk mk w) as Hf.
  destruct (create_branch clk mk w) as [o w'].
  destruct Hf as (_ & _ & _ & _ & _ & _ & _ & _ & _ & _ & _ & Htr).
  eexists. split; [exact Htr | apply disciplined_create].
Qed.

Lemma disciplined_get_resource w :
  exists evs,
    trace (get_resource clk mk w).2 = trace w ++ evs /\ disciplined sh evs.
Proof.
  pose proof (get_resource_cases clk mk w) as Hcase.
  destruct Hcase as [pre r post mc mf E Hpre Hr | mc mf Hpre
                    | pre r post mc mf E Hpre Hr]; cbn [snd].
  - apply disciplined_scanned.
    apply disciplined_app; [apply disciplined_pull | apply disciplined_incr].
  - destruct (disciplined_scanned mc (__pool (self w)) [] pull_none_events 0 w
                disciplined_pull_none) as (evs1 & E1 & D1).
    destruct (disciplined_create_branch
                (scanned mc (__pool (self w)) [] pull_none_events 0 w))
      as (evs2 & E2 & D2).
    exists (evs1 ++ evs2). rewrite E2, E1, <- app_assoc.
    split; [reflexivity | apply disciplined_app; assumption].
  - destruct (disciplined_scanned mc pre post pull_events 0 w
                disciplined_pull) as (evs1 & E1 & D1).
    destruct (disciplined_create_branch
                (scanned mc pre post pull_events 0 w))
      as (evs2 & E2 & D2).
    exists (evs1 ++ evs2). rewrite E2, E1, <- app_assoc.
    split; [reflexivity | apply disciplined_app; assumption].
Qed.

Lemma disciplined_release_resource r w :
  exists evs,
    trace (release_resource clk r w).2 = trace w ++ evs /\ disciplined sh evs.
Proof.
  destruct (has_room (self w)) eqn:Hroom.
  - rewrite release_resource_stored by exact Hroom.
    eexists. split; [reflexivity | apply disciplined_stored].
  - rewrite release_resource_discarded by exact Hroom.
    eexists. split; [reflexivity | apply disciplined_discarded].
Qed.

Lemma disciplined_clear_pool n w :
  exists evs,
    trace (clear_pool n w).2 = trace w ++ evs /\ disciplined sh evs.
Proof.
  rewrite clear_pool_run. eexists. split; [reflexivity|].
  apply disciplined_clear.
Qed.

(** The events a call adds to the trace keep the discipline. *)
Lemma disciplined_exec op w :
  (op = OpStatus -> disciplined sh status_events) ->
  exists evs,
    trace (exec clk mk op w).2 = trace w ++ evs /\ disciplined sh evs.
Proof.
  intros Hstatus.
  set (I := fun w' : World =>
         exists evs, trace w' = trace w ++ evs /\ disciplined sh evs).
  assert (forall (w1 w2 : World) evs,
            trace w2 = trace w1 ++ evs -> disciplined sh evs -> I w1 -> I w2)
    as Hstep.
  { intros w1 w2 evs E D (evs1 & E1 & D1). exists (evs1 ++ evs).
    rewrite E, E1, <- app_assoc. split; [reflexivity|].
    apply disciplined_app; assumption. }
  apply (exec_preserves clk mk I).
  - intros m w1. apply (Hstep w1 _ [EvCall m]); reflexivity.
  - intros w1. destruct (disciplined_get_resource w1) as (evs & E & D).
    exact (Hstep w1 _ evs E D).
  - intros r w1. destruct (disciplined_release_resource r w1) as (evs & E & D).
    exact (Hstep w1 _ evs E D).
  - intros n _ w1. destruct (disciplined_clear_pool n w1) as (evs & E & D).
    exact (Hstep w1 _ evs E D).
  - intros _ w1. destruct (disciplined_clear_pool (Some (-1)) w1)
      as (evs & E & D).
    exact (Hstep w1 _ evs E D).
  - intros Hop w1. apply (Hstep w1 _ status_events).
    + rewrite get_status_run. reflexivity.
    + exact (Hstatus Hop).
  - exists []. rewrite app_nil_r. split; reflexivity.
Qed.

End Discipline.

(** C9, as stated, fails: the counters are read and written with the lock
    free (every [self.count_... += ...] comes after the [release()] of the
    lock), and [get_status] reads the pool, the limit and the counters
    without taking the lock at all.  The first trace is that of
    [get_resource] on a new pool. *)
Lemma counters_are_updated_without_the_lock :
  let tr := trace (get_resource clk_demo mk_demo (fresh 10 3600 300)).2 in
  tr = [EvCall MGetResource; EvAcquire; EvRead FPool; EvRelease; EvCreate;
        EvRead (FCount CCreated); EvWrite (FCount CCreated)] /\
  lock_check all_shared false tr = None /\
  lock_check pool_and_limit false
    (trace (get_status (fresh 10 3600 300)).2) = None.
Proof. vm_compute. repeat split; reflexivity. Qed.

(** C9 (amended): in every call of every method the lock is taken and
    released in pairs and is free when the call ends, normally or not;
    [create_resource] and [destroy_resource] are only called with the lock
    free; and in every method but [get_status] every read and write of the
    idle sequence and of [pool_size_limit] happens with the lock held.
    (The six counters are read and updated with the lock free, and
    [get_status] takes no lock.) *)
Theorem lock_discipline (clk : nat -> Z) (mk : nat -> CreateOutcome)
    (op : Op) (w : World) :
  exists evs,
    trace (exec clk mk op w).2 = trace w ++ evs /\
    disciplined nothing_shared evs /\
    (op <> OpStatus -> disciplined pool_and_limit evs).
Proof.
  destruct (disciplined_exec nothing_shared (fun _ => eq_refl) clk mk op w)
    as (evs & E & D); [intros _; reflexivity|].
  exists evs. split; [exact E|]. split; [exact D|]. intros Hop.
  destruct (disciplined_exec pool_and_limit (fun _ => eq_refl) clk mk op w)
    as (evs' & E' & D'); [intros Hs; contradiction|].
  rewrite E in E'. apply app_inv_head in E'. subst evs'. exact D'.
Qed.

Lemma lock_discipline_witness :
  OpPreheat 3 <> OpStatus /\
  disciplined pool_and_limit
    (trace (exec clk_demo mk_demo (OpPreheat 3) (fresh 2 3600 300)).2).
Proof.
  split; [discriminate|].
  destruct (lock_discipline clk_demo mk_demo (OpPreheat 3) (fresh 2 3600 300))
    as (evs & E & _ & D).
  rewrite E. exact (D ltac:(discriminate)).
Defined.

(** * Further properties of the methods *)

(** What a call of [get_resource] pulls from the pool: a run of resources
    it destroys, then the resource it serves, or nothing, or a false
    object. *)
Lemma get_resource_pulled (clk : nat -> Z) (mk : nat -> CreateOutcome)
    (w : World) :
  let o := (get_resource clk mk w).1 in
  let w' := (get_resource clk mk w).2 in
  let mc := min_created_at (clk (ticks w)) (self w) in
  let mf := min_fresh_at (clk (ticks w)) (self w) in
  exists pre,
    Forall (doomed (heap w) mc mf) pre /\
    destroyed (trace w') = destroyed (trace w) ++ pre /\
    count_killed_ttl (self w') =
      count_killed_ttl (self w) + ttl_kills (heap w) mc pre /\
    count_killed_stale (self w') =
      count_killed_stale (self w) + stale_kills (heap w) mc pre /\
    ((exists r, o = Ret r /\ __pool (self w) = pre ++ r :: __pool (self w') /\
                valid (heap w) mc mf r /\ creates w' = creates w)
     \/ (__pool (self w) = pre /\ __pool (self w') = [] /\
         creates w' = S (creates w))
     \/ (exists x, __pool (self w) = pre ++ x :: __pool (self w') /\
                   truthy (heap w !!! x) = false /\
                   creates w' = S (creates w))).
Proof.
  pose proof (get_resource_cases clk mk w) as Hcase.
  destruct Hcase as [pre r post mc mf E Hpre Hr | mc mf Hpre
                    | pre r post mc mf E Hpre Hr]; cbn [fst snd].
  - exists pre. split; [exact Hpre|]. split.
    { apply destroyed_scanned. reflexivity. }
    split; [reflexivity|]. split; [reflexivity|].
    left. exists r. repeat split; try apply Hr; auto.
  - exists (__pool (self w)). split; [exact Hpre|].
    pose proof (create_branch_frame clk mk
      (scanned mc (__pool (self w)) [] pull_none_events 0 w)) as Hf.
    destruct (create_branch clk mk _) as [o w'].
    destruct Hf as (Hl & _ & _ & _ & _ & Hc3 & Hc4 & _ & _ & _ & Hcr & Htr).
    cbn [fst snd]. rewrite Htr, Hl, Hcr, Hc3, Hc4, destroyed_app.
    rewrite destroyed_scanned by reflexivity. split.
    { destruct o; cbn; rewrite app_nil_r; reflexivity. }
    split; [reflexivity|]. split; [reflexivity|].
    right. left. repeat split; reflexivity.
  - exists pre. split; [exact Hpre|].
    pose proof (create_branch_frame clk mk
      (scanned mc pre post pull_events 0 w)) as Hf.
    destruct (create_branch clk mk _) as [o w'].
    destruct Hf as (Hl & _ & _ & _ & _ & Hc3 & Hc4 & _ & _ & _ & Hcr & Htr).
    cbn [fst snd]. rewrite Htr, Hl, Hcr, Hc3, Hc4, destroyed_app.
    rewrite destroyed_scanned by reflexivity. split.
    { destruct o; cbn; rewrite app_nil_r; reflexivity. }
    split; [reflexivity|]. split; [reflexivity|].
    right. right. exists r. repeat split; assumption || reflexivity.
Qed.

(** ** [clear_pool] *)

(** X1: [clear_pool(n)] returns normally, empties the idle sequence, calls
    [destroy_resource] on exactly the resources that were idle, front to
    back, and adds their number to [count_cleared]; the limit becomes [n]
    when one is given and is kept otherwise; nothing else changes (the
    other counters, the two age limits, the stamps), and neither the clock
    nor [create_resource] is called. *)
Theorem clear_pool_destroys_idle (new_pool_size_limit : option Z)
    (w : World) :
  (clear_pool new_pool_size_limit w).1 = Ret tt /\
  let w' := (clear_pool new_pool_size_limit w).2 in
  __pool (self w') = [] /\
  destroyed (trace w') = destroyed (trace w) ++ __pool (self w) /\
  count_cleared (self w') =
    count_cleared (self w) + Z.of_nat (length (__pool (self w))) /\
  pool_size_limit (self w') =
    default (pool_size_limit (self w)) new_pool_size_limit /\
  (forall c, c <> CCleared -> count c (self w') = count c (self w)) /\
  max_age (self w') = max_age (self w) /\
  max_idle_time (self w') = max_idle_time (self w) /\
  heap w' = heap w /\ ticks w' = ticks w /\ creates w' = creates w.
Proof.
  rewrite clear_pool_run. cbn [fst snd]. split; [reflexivity|].
  destruct w as [[l lim age idle c1 c2 c3 c4 c5 c6] h t c tr]. cbn.
  repeat split; try reflexivity.
  - rewrite destroyed_app. f_equal.
    destruct new_pool_size_limit; cbn; apply destroyed_map.
  - intros [] Hc; try reflexivity. contradiction.
Qed.

(** ** [get_status] *)

(** X2: [get_status] changes nothing in the pool, the objects, the clock or
    the factory, and returns a dictionary with exactly eight entries: the
    length of the idle sequence, the limit and the six counters, each under
    its own name. *)
Theorem get_status_reports (w : World) :
  exists d,
    (get_status w).1 = Ret d /\
    self (get_status w).2 = self w /\
    heap (get_status w).2 = heap w /\
    ticks (get_status w).2 = ticks w /\
    creates (get_status w).2 = creates w /\
    size d = 8%nat /\
    d !! "pool_size" = Some (Z.of_nat (length (__pool (self w)))) /\
    d !! "pool_size_limit" = Some (pool_size_limit (self w)) /\
    d !! "count_created" = Some (count_created (self w)) /\
    d !! "count_cleared" = Some (count_cleared (self w)) /\
    d !! "count_killed_stale" = Some (count_killed_stale (self w)) /\
    d !! "count_killed_ttl" = Some (count_killed_ttl (self w)) /\
    d !! "count_overflow_discard" = Some (count_overflow_discard (self w)) /\
    d !! "count_served_from_pool" = Some (count_served_from_pool (self w)).
Proof.
  destruct w as [[l lim age idle c1 c2 c3 c4 c5 c6] h t c tr].
  unfold get_status. unfold_m. cbn -[list_to_map].
  eexists. split; [reflexivity|]. repeat (split; [reflexivity|]).
  reflexivity.
Qed.

(** ** [release_resource] and [get_resource] *)

(** X3: when the idle sequence has reached a positive limit,
    [release_resource(resource)] stores nothing: the idle sequence and all
    stamps stay as they are, the clock is not read, [count_overflow_discard]
    grows by exactly 1 and [destroy_resource(resource)] is called. *)
Theorem release_resource_full_pool (clk : nat -> Z) (w : World)
    (resource : ObjId) :
  0 < pool_size_limit (self w) ->
  pool_size_limit (self w) <= Z.of_nat (length (__pool (self w))) ->
  (release_resource clk resource w).1 = Ret tt /\
  let w' := (release_resource clk resource w).2 in
  __pool (self w') = __pool (self w) /\
  heap w' = heap w /\
  ticks w' = ticks w /\
  count_overflow_discard (self w') = count_overflow_discard (self w) + 1 /\
  destroyed (trace w') = destroyed (trace w) ++ [resource].
Proof.
  intros Hpos Hfull.
  assert (has_room (self w) = false) as Hroom.
  { unfold has_room. apply orb_false_iff.
    split; [apply Z.eqb_neq | apply Z.ltb_ge]; lia. }
  rewrite (release_resource_discarded clk w resource Hroom).
  destruct w as [[l lim age idle c1 c2 c3 c4 c5 c6] h t c tr]. cbn.
  repeat split; try reflexivity. rewrite destroyed_app. reflexivity.
Qed.

Lemma release_resource_full_pool_witness :
  let w := exec_all clk_demo mk_demo [OpPreheat 2] (fresh 2 3600 300) in
  0 < pool_size_limit (self w) /\
  pool_size_limit (self w) <= Z.of_nat (length (__pool (self w))) /\
  count_overflow_discard (self (release_resource clk_demo 7%nat w).2) = 1.
Proof.
  cbn zeta. split; [reflexivity|]. split; [vm_compute; discriminate|].
  destruct (release_resource_full_pool clk_demo
              (exec_all clk_demo mk_demo [OpPreheat 2] (fresh 2 3600 300))
              7%nat) as (_ & _ & _ & _ & H & _).
  - reflexivity.
  - vm_compute. discriminate.
  - rewrite H. reflexivity.
Defined.

(** X4: a resource released into an empty pool that has room comes back
    from the next [get_resource], provided it is a true object that is
    still within both limits at that call (the stamp the release wrote is
    the clock reading [t1], the snapshot of the call is the next reading
    [t2]): nothing is created, nothing is destroyed, the pool is empty
    again and [count_served_from_pool] has grown by 1. *)
Theorem release_then_get_round_trip (clk : nat -> Z)
    (mk : nat -> CreateOutcome) (w : World) (resource : ObjId) :
  let t1 := clk (ticks w) in
  let t2 := clk (S (ticks w)) in
  __pool (self w) = [] ->
  pool_size_limit (self w) = 0 \/ 0 < pool_size_limit (self w) ->
  truthy (heap w !!! resource) = true ->
  min_created_at t2 (self w) <= createdAt (heap w) resource ->
  min_fresh_at t2 (self w) <= t1 ->
  let w1 := (release_resource clk resource w).2 in
  (get_resource clk mk w1).1 = Ret resource /\
  let w2 := (get_resource clk mk w1).2 in
  __pool (self w2) = [] /\
  creates w2 = creates w /\
  count_created (self w2) = count_created (self w) /\
  count_served_from_pool (self w2) = count_served_from_pool (self w) + 1 /\
  count_destroyed (self w2) = count_destroyed (self w) /\
  destroyed (trace w2) = destroyed (trace w).
Proof.
  intros t1 t2 Hl Hlim Htruthy Hage Hidle.
  assert (has_room (self w) = true) as Hroom.
  { unfold has_room. rewrite Hl. apply orb_true_iff.
    destruct Hlim as [H0 | Hpos];
      [left; apply Z.eqb_eq; exact H0 | right; apply Z.ltb_lt; cbn; lia]. }
  rewrite (release_resource_stored clk w resource Hroom). cbn [fst snd].
  set (w1 := mkWorld _ _ _ _ _).
  assert (valid (heap w1) (min_created_at (clk (ticks w1)) (self w1))
            (min_fresh_at (clk (ticks w1)) (self w1)) resource) as Hvalid.
  { subst w1. destruct w as [[l lim age idle c1 c2 c3 c4 c5 c6] h t c tr].
    cbn in *. unfold valid, createdAt, releasedAt, dict_get.
    rewrite lookup_total_insert_eq. cbn.
    rewrite lookup_insert_eq, lookup_insert_ne by discriminate.
    cbn. repeat split; assumption. }
  assert (__pool (self w1) = [] ++ resource :: []) as Hl1.
  { subst w1. destruct w as [[l lim age idle c1 c2 c3 c4 c5 c6] h t c tr].
    cbn in *. subst l. reflexivity. }
  rewrite (get_resource_serves clk mk w1 [] resource [] Hl1
             (Forall_nil_2 _) Hvalid).
  subst w1. destruct w as [[l lim age idle c1 c2 c3 c4 c5 c6] h t c tr].
  cbn -[destroyed] in Hl |- *. subst l.
  unfold count_destroyed, ttl_kills, stale_kills. cbn -[destroyed].
  repeat split; try reflexivity; try lia.
  rewrite !destroyed_app. unfold stored_events.
  destruct (lim =? 0); cbn; rewrite ?app_nil_r; reflexivity.
Qed.

Lemma release_then_get_round_trip_witness :
  (get_resource clk_late mk_demo
     (release_resource clk_late 3%nat
        (mkWorld (__init__ 10 3600 300) heap_mixed 0 0 [])).2).1
  = Ret 3%nat.
Proof.
  apply (release_then_get_round_trip clk_late mk_demo
           (mkWorld (__init__ 10 3600 300) heap_mixed 0 0 []) 3%nat).
  - reflexivity.
  - right. reflexivity.
  - reflexivity.
  - vm_compute. discriminate.
  - vm_compute. discriminate.
Defined.

(** X5: whatever the state of the pool, a resource that [get_resource]
    returns is either one the hook [create_resource] has just returned, or
    an idle resource that passes both checks against the snapshot of the
    call: a true object, not older than [max_age] and not idle for longer
    than [max_idle_time].  A resource past a limit is never served. *)
Theorem get_resource_never_serves_expired (clk : nat -> Z)
    (mk : nat -> CreateOutcome) (w : World) (r : ObjId) :
  (get_resource clk mk w).1 = Ret r ->
  let t0 := clk (ticks w) in
  let w' := (get_resource clk mk w).2 in
  (r ∈ __pool (self w) /\
   valid (heap w) (min_created_at t0 (self w)) (min_fresh_at t0 (self w)) r /\
   creates w' = creates w /\
   count_created (self w') = count_created (self w))
  \/
  (mk (creates w) = Returns r /\
   creates w' = S (creates w) /\
   count_created (self w') = count_created (self w) + 1 /\
   createdAt (heap w') r = clk (S (ticks w))).
Proof.
  intros Ho. cbn zeta.
  pose proof (get_resource_effect clk mk w) as Heff. cbn zeta in Heff.
  rewrite Ho in Heff.
  destruct Heff as (pre & _ & _ & _ & _ & _ & _ & _ & _ & _ & _ &
                    [(Hl & Hr & _ & Hc & _ & Hcr) | (_ & Hmk & _ & Hc & Hh & Hcr)]).
  - left. split; [|repeat split; assumption || apply Hr].
    rewrite Hl. apply elem_of_app. right. left.
  - right. repeat split; try assumption.
    rewrite Hh. unfold createdAt, dict_get.
    rewrite lookup_total_insert_eq. cbn. rewrite lookup_insert_eq. reflexivity.
Qed.

Lemma get_resource_never_serves_expired_witness :
  (get_resource clk_late mk_demo w_mixed).1 = Ret 3%nat /\
  9700 <= releasedAt (heap w_mixed) 3%nat.
Proof.
  split; [reflexivity|].
  destruct (get_resource_never_serves_expired clk_late mk_demo w_mixed 3%nat
              eq_refl) as [(_ & (_ & _ & Hf) & _) | (Hmk & _)].
  - exact Hf.
  - discriminate Hmk.
Defined.

(** X6: a call of [get_resource] loses no true resource: when every idle
    object is true, the idle sequence at entry is, in order, the resources
    the call has passed to [destroy_resource], then the resource it returns
    if it serves one, then the idle sequence it leaves. *)
Theorem get_resource_conserves (clk : nat -> Z) (mk : nat -> CreateOutcome)
    (w : World) :
  Forall (fun x => truthy (heap w !!! x) = true) (__pool (self w)) ->
  let o := (get_resource clk mk w).1 in
  let w' := (get_resource clk mk w).2 in
  exists killed,
    destroyed (trace w') = destroyed (trace w) ++ killed /\
    Z.of_nat (length killed) =
      (count_killed_ttl (self w') - count_killed_ttl (self w))
      + (count_killed_stale (self w') - count_killed_stale (self w)) /\
    ((exists r, o = Ret r /\ creates w' = creates w /\
                __pool (self w) = killed ++ r :: __pool (self w'))
     \/ (creates w' = S (creates w) /\
         __pool (self w) = killed /\ __pool (self w') = [])).
Proof.
  intros Htruthy. cbn zeta.
  destruct (get_resource_pulled clk mk w)
    as (pre & Hpre & Hd & Httl & Hstale & Hcase).
  pose proof (kills_total (heap w)
                (min_created_at (clk (ticks w)) (self w)) pre) as Hk.
  exists pre. split; [exact Hd|]. split; [lia|].
  destruct Hcase as [(r & Ho & Hl & _ & Hcr) | [(Hl & Hl' & Hcr)
                    | (x & Hl & Hx & _)]].
  - left. exists r. repeat split; assumption.
  - right. repeat split; assumption.
  - rewrite Forall_forall in Htruthy. rewrite Htruthy in Hx; [discriminate|].
    rewrite Hl. apply elem_of_app. right. left.
Qed.

Lemma get_resource_conserves_witness :
  destroyed (trace (get_resource clk_late mk_demo w_mixed).2)
  = [1%nat; 2%nat].
Proof.
  destruct (get_resource_conserves clk_late mk_demo w_mixed)
    as (killed & Hd & _ & _).
  - repeat constructor.
  - reflexivity.
Defined.

(** X7: an idle object that is false in a boolean context (an empty
    container, an object whose [__bool__] says no) is lost by
    [get_resource]: when it is at the front of the idle sequence the call
    removes it, takes it for an exhausted pool and creates a new resource;
    the false object is neither returned (unless the hook itself returns
    it), nor passed to [destroy_resource], nor counted by any counter. *)
Theorem get_resource_drops_false_object (clk : nat -> Z)
    (mk : nat -> CreateOutcome) (w : World) (x : ObjId) (post : list ObjId) :
  __pool (self w) = x :: post ->
  truthy (heap w !!! x) = false ->
  let o := (get_resource clk mk w).1 in
  let w' := (get_resource clk mk w).2 in
  __pool (self w') = post /\
  destroyed (trace w') = destroyed (trace w) /\
  creates w' = S (creates w) /\
  count_destroyed (self w') = count_destroyed (self w) /\
  count_served_from_pool (self w') = count_served_from_pool (self w) /\
  match o with
  | Ret r =>
    mk (creates w) = Returns r /\
    count_created (self w') = count_created (self w) + 1
  | Raise _ => count_created (self w') = count_created (self w)
  | OutOfFuel => False
  end.
Proof.
  intros Hl Hx. cbn zeta.
  rewrite (get_resource_falsy clk mk w [] x post Hl (Forall_nil_2 _) Hx).
  pose proof (create_branch_frame clk mk
    (scanned (min_created_at (clk (ticks w)) (self w)) [] post pull_events 0 w))
    as Hf.
  destruct (create_branch clk mk _) as [o w'].
  destruct Hf as (Hl' & _ & _ & _ & Hc1 & Hc3 & Hc4 & Hc5 & Hc6 & Ho & Hcr & Htr).
  cbn [fst snd]. unfold count_destroyed.
  rewrite Hl', Htr, Hcr, Hc1, Hc3, Hc4, Hc5, Hc6, destroyed_app.
  rewrite destroyed_scanned by reflexivity.
  destruct w as [[l lim age idle c1 c2 c3 c4 c5 c6] h t c tr].
  cbn -[destroyed] in *. unfold ttl_kills, stale_kills. cbn -[destroyed].
  split; [reflexivity|]. split.
  { destruct o; cbn; rewrite !app_nil_r; reflexivity. }
  split; [reflexivity|]. split; [lia|]. split; [lia|].
  destruct o as [r|e|]; [|destruct e|].
  - destruct Ho as (Hmk & Hc2 & _). split; assumption.
  - apply Ho.
  - apply Ho.
  - exact Ho.
Qed.

Lemma get_resource_drops_false_object_witness :
  let w' := (get_resource clk_late mk_demo w_falsy).2 in
  (get_resource clk_late mk_demo w_falsy).1 = Ret 10%nat /\
  __pool (self w') = [2%nat] /\ destroyed (trace w') = [].
Proof.
  cbn zeta. split; [reflexivity|].
  destruct (get_resource_drops_false_object clk_late mk_demo w_falsy 1%nat
              [2%nat] eq_refl eq_refl) as (Hl & Hd & _).
  split; [exact Hl | exact Hd].
Defined.

(** X8: with the hook of the base class, which returns [None],
    [get_resource] on an empty pool raises [AttributeError] (the stamp
    cannot be written); the pool is exactly as it was, no object is
    stamped, and the hook has been called once. *)
Theorem get_resource_base_class_raises (clk : nat -> Z)
    (mk : nat -> CreateOutcome) (w : World) :
  __pool (self w) = [] ->
  mk (creates w) = ReturnsNone ->
  (get_resource clk mk w).1 = Raise AttributeError /\
  let w' := (get_resource clk mk w).2 in
  self w' = self w /\ heap w' = heap w /\ creates w' = S (creates w).
Proof.
  intros Hl Hmk.
  assert (Forall (doomed (heap w) (min_created_at (clk (ticks w)) (self w))
                    (min_fresh_at (clk (ticks w)) (self w)))
            (__pool (self w))) as Hpre by (rewrite Hl; constructor).
  rewrite (get_resource_exhausted clk mk w Hpre).
  rewrite (create_branch_none clk mk
             (scanned _ _ [] pull_none_events 0 w) Hmk).
  destruct w as [[l lim age idle c1 c2 c3 c4 c5 c6] h t c tr].
  cbn in Hl. subst l. cbn. unfold ttl_kills, stale_kills. cbn.
  repeat split; try reflexivity. apply mkPool_eq; try reflexivity; lia.
Qed.

Lemma get_resource_base_class_raises_witness :
  (get_resource clk_demo mk_base (fresh 10 3600 300)).1
  = Raise AttributeError.
Proof.
  apply (get_resource_base_class_raises clk_demo mk_base (fresh 10 3600 300));
    reflexivity.
Defined.

(** ** What no call ever does *)

Ltac other_op :=
  intros;
  repeat match goal with H : _ \/ _ |- _ => destruct H end;
  discriminate.

(** A relation between the world before and after that every basic step
    keeps holds across any call, [preheat] included. *)
Lemma exec_relates (clk : nat -> Z) (mk : nat -> CreateOutcome)
    (R : World -> World -> Prop) :
  (forall w, R w w) ->
  (forall w1 w2 w3, R w1 w2 -> R w2 w3 -> R w1 w3) ->
  (forall m w, R w (emit (EvCall m) w).2) ->
  (forall w, R w (get_resource clk mk w).2) ->
  (forall r w, R w (release_resource clk r w).2) ->
  (forall n w, R w (clear_pool n w).2) ->
  (forall w, R w (get_status w).2) ->
  forall op w, R w (exec clk mk op w).2.
Proof.
  intros Hrefl Htrans Hcall Hget Hrel Hclear Hstatus op w.
  apply (exec_preserves clk mk (R w)).
  - intros m w1 H1. exact (Htrans _ _ _ H1 (Hcall m w1)).
  - intros w1 H1. exact (Htrans _ _ _ H1 (Hget w1)).
  - intros r w1 H1. exact (Htrans _ _ _ H1 (Hrel r w1)).
  - intros n _ w1 H1. exact (Htrans _ _ _ H1 (Hclear n w1)).
  - intros _ w1 H1. exact (Htrans _ _ _ H1 (Hclear (Some (-1)) w1)).
  - intros _ w1 H1. exact (Htrans _ _ _ H1 (Hstatus w1)).
  - apply Hrefl.
Qed.

Lemma exec_all_relates (clk : nat -> Z) (mk : nat -> CreateOutcome)
    (R : World -> World -> Prop) :
  (forall w, R w w) ->
  (forall w1 w2 w3, R w1 w2 -> R w2 w3 -> R w1 w3) ->
  (forall op w, R w (exec clk mk op w).2) ->
  forall ops w, R w (exec_all clk mk ops w).
Proof.
  intros Hrefl Htrans Hstep ops.
  induction ops as [|op ops IH]; intros w; [apply Hrefl|].
  cbn. exact (Htrans _ _ _ (Hstep op w) (IH _)).
Qed.

(** X9: no call of any method ever decreases a counter: across any
    sequence of calls each of the six counters only grows. *)
Theorem counters_never_decrease (clk : nat -> Z) (mk : nat -> CreateOutcome)
    (ops : list Op) (w : World) (c : Counter) :
  count c (self w) <= count c (self (exec_all clk mk ops w)).
Proof.
  revert c.
  apply (exec_all_relates clk mk
           (fun w w' => forall c, count c (self w) <= count c (self w'))).
  - intros w0 c. lia.
  - intros w1 w2 w3 H12 H23 c. specialize (H12 c). specialize (H23 c). lia.
  - clear ops w. intros op w.
    apply (exec_relates clk mk
             (fun w w' => forall c, count c (self w) <= count c (self w'))).
    + intros w0 c. lia.
    + intros w1 w2 w3 H12 H23 c. specialize (H12 c). specialize (H23 c). lia.
    + intros m w0 c. cbn. lia.
    + intros w0 c.
      pose proof (get_resource_effect clk mk w0) as Heff. cbn zeta in Heff.
      destruct Heff as (pre & _ & Httl & Hstale & _ & _ & _ & Hcl & Hov & _ & _ & Ho).
      pose proof (kills_nonneg (heap w0)
                    (min_created_at (clk (ticks w0)) (self w0)) pre) as [? ?].
      assert (count_created (self w0)
                <= count_created (self (get_resource clk mk w0).2) /\
              count_served_from_pool (self w0)
                <= count_served_from_pool (self (get_resource clk mk w0).2))
        as [? ?].
      { destruct (get_resource clk mk w0).1 as [r|e|].
        - destruct Ho as [(_ & _ & Hs & Hc & _) | (_ & _ & Hs & Hc & _)]; lia.
        - destruct Ho as (_ & Hs & Hc & _). lia.
        - destruct Ho. }
      destruct c; cbn [count]; lia.
    + intros r w0 c. destruct (has_room (self w0)) eqn:Hroom.
      * rewrite release_resource_stored by exact Hroom.
        destruct w0 as [[l lim age idle c1 c2 c3 c4 c5 c6] h t c0 tr].
        destruct c; cbn; lia.
      * rewrite release_resource_discarded by exact Hroom.
        destruct w0 as [[l lim age idle c1 c2 c3 c4 c5 c6] h t c0 tr].
        destruct c; cbn; lia.
    + intros n w0 c. rewrite clear_pool_run.
      destruct w0 as [[l lim age idle c1 c2 c3 c4 c5 c6] h t c0 tr].
      destruct c; cbn; lia.
    + intros w0 c. rewrite get_status_run. cbn. lia.
Qed.

(** X10: the two age limits are never changed by any call, and
    [pool_size_limit] is changed only by the calls that are given a new
    limit: after [clear_pool(n)] and [restart_pool(n)] it is [n], after
    [shut_down()] it is -1, and every other call ([get_resource],
    [release_resource], [preheat], [get_status], [clear_pool()]) leaves it
    as it is. *)
Theorem limits_change_only_on_request (clk : nat -> Z)
    (mk : nat -> CreateOutcome) (op : Op) (w : World) :
  let w' := (exec clk mk op w).2 in
  max_age (self w') = max_age (self w) /\
  max_idle_time (self w') = max_idle_time (self w) /\
  pool_size_limit (self w') = limit_after op (pool_size_limit (self w)).
Proof.
  cbn zeta.
  assert (forall n w0,
            max_age (self (clear_pool n w0).2) = max_age (self w0) /\
            max_idle_time (self (clear_pool n w0).2) = max_idle_time (self w0) /\
            pool_size_limit (self (clear_pool n w0).2)
              = default (pool_size_limit (self w0)) n) as Hclear.
  { intros n w0. rewrite clear_pool_run.
    destruct w0 as [[l lim age idle c1 c2 c3 c4 c5 c6] h t c0 tr].
    cbn. repeat split; reflexivity. }
  set (I := fun w' : World =>
         max_age (self w') = max_age (self w) /\
         max_idle_time (self w') = max_idle_time (self w) /\
         pool_size_limit (self w') = pool_size_limit (self w)).
  assert (forall m w0, I w0 -> I (emit (EvCall m) w0).2) as Icall
    by (intros m w0 H0; exact H0).
  assert (forall w0, I w0 -> I (get_resource clk mk w0).2) as Iget.
  { intros w0 (Ha & Hi & Hl).
    destruct (get_resource_effect clk mk w0)
      as (pre & _ & _ & _ & Hlim & Hage & Hidle & _).
    unfold I. rewrite Hlim, Hage, Hidle. repeat split; assumption. }
  assert (forall r w0, I w0 -> I (release_resource clk r w0).2) as Irel.
  { intros r w0 H0. destruct (has_room (self w0)) eqn:Hroom.
    - rewrite release_resource_stored by exact Hroom.
      destruct w0 as [[l lim age idle c1 c2 c3 c4 c5 c6] h t c0 tr]. exact H0.
    - rewrite release_resource_discarded by exact Hroom.
      destruct w0 as [[l lim age idle c1 c2 c3 c4 c5 c6] h t c0 tr]. exact H0. }
  assert (I w) as Iw by (repeat split; reflexivity).
  destruct op as [|r|[n|]|[n|]| |count|]; cbn [limit_after].
  - apply (exec_preserves clk mk I); try assumption; other_op.
  - apply (exec_preserves clk mk I); try assumption; other_op.
  - cbn [exec]. apply Hclear.
  - cbn [exec]. apply Hclear.
  - cbn [exec]. unfold restart_pool, mbind, M_bind. cbn [emit].
    exact (Hclear (Some n) (emit (EvCall MRestartPool) w).2).
  - cbn [exec]. unfold restart_pool, mbind, M_bind. cbn [emit].
    exact (Hclear None (emit (EvCall MRestartPool) w).2).
  - cbn [exec]. unfold shut_down, mbind, M_bind. cbn [emit].
    exact (Hclear (Some (-1)) (emit (EvCall MShutDown) w).2).
  - apply (exec_preserves clk mk I); try assumption; other_op.
  - apply (exec_preserves clk mk I); try assumption.
    + other_op.
    + other_op.
    + intros _ w0 H0. rewrite get_status_run. exact H0.
Qed.

Lemma stamp_frame (h : gmap ObjId Obj) (r : ObjId) (key : string) (t : Z)
    (x : ObjId) :
  truthy (<[r := stamp key t (h !!! r)]> h !!! x) = truthy (h !!! x) /\
  forall k, k <> key ->
    obj_dict (<[r := stamp key t (h !!! r)]> h !!! x) !! k
    = obj_dict (h !!! x) !! k.
Proof.
  destruct (decide (x = r)) as [->|Hne].
  - rewrite lookup_total_insert_eq. cbn. split; [reflexivity|].
    intros k Hk. apply lookup_insert_ne. congruence.
  - rewrite lookup_total_insert_ne by congruence. split; reflexivity.
Qed.

(** X11: the pool writes nothing in a resource but its two stamps: across
    any sequence of calls, the truth value of every object and every entry
    of its [__dict__] other than [CREATED] and [RELEASED] are as they
    were. *)
Theorem only_the_stamps_are_written (clk : nat -> Z)
    (mk : nat -> CreateOutcome) (ops : list Op) (w : World) (x : ObjId) :
  let w' := exec_all clk mk ops w in
  truthy (heap w' !!! x) = truthy (heap w !!! x) /\
  forall key, key <> CREATED -> key <> RELEASED ->
    obj_dict (heap w' !!! x) !! key = obj_dict (heap w !!! x) !! key.
Proof.
  cbn zeta. revert x.
  set (R := fun w w' : World => forall x,
         truthy (heap w' !!! x) = truthy (heap w !!! x) /\
         forall key, key <> CREATED -> key <> RELEASED ->
           obj_dict (heap w' !!! x) !! key = obj_dict (heap w !!! x) !! key).
  assert (forall w0, R w0 w0) as Hrefl by (intros w0 x; split; reflexivity).
  assert (forall w1 w2 w3, R w1 w2 -> R w2 w3 -> R w1 w3) as Htrans.
  { intros w1 w2 w3 H12 H23 x. destruct (H12 x) as [Ht1 Hd1].
    destruct (H23 x) as [Ht2 Hd2]. split; [congruence|].
    intros key Hc Hr. rewrite Hd2, Hd1 by assumption. reflexivity. }
  assert (forall (w0 : World) r key t, key = CREATED \/ key = RELEASED ->
            forall w1, heap w1 = <[r := stamp key t (heap w0 !!! r)]> (heap w0) ->
            R w0 w1) as Hstamp.
  { intros w0 r key t Hkey w1 Hh x. rewrite Hh.
    destruct (stamp_frame (heap w0) r key t x) as [Ht Hd].
    split; [exact Ht|]. intros k Hc Hr. apply Hd.
    destruct Hkey; congruence. }
  assert (forall w0 w1 : World, heap w1 = heap w0 -> R w0 w1) as Hsame.
  { intros w0 w1 Hh x. rewrite Hh. split; reflexivity. }
  apply (exec_all_relates clk mk R Hrefl Htrans).
  clear ops w. intros op w.
  apply (exec_relates clk mk R Hrefl Htrans).
  - intros m w0. apply Hsame. reflexivity.
  - intros w0.
    pose proof (get_resource_effect clk mk w0) as Heff. cbn zeta in Heff.
    destruct Heff as (pre & _ & _ & _ & _ & _ & _ & _ & _ & _ & _ & Ho).
    destruct (get_resource clk mk w0).1 as [r|e|].
    + destruct Ho as [(_ & _ & _ & _ & Hh & _) | (_ & _ & _ & _ & Hh & _)].
      * apply Hsame. exact Hh.
      * apply (Hstamp w0 r CREATED _ (or_introl eq_refl) _ Hh).
    + destruct Ho as (_ & _ & _ & Hh & _). apply Hsame. exact Hh.
    + destruct Ho.
  - intros r w0. destruct (has_room (self w0)) eqn:Hroom.
    + rewrite release_resource_stored by exact Hroom.
      apply (Hstamp w0 r RELEASED (clk (ticks w0)) (or_intror eq_refl)).
      reflexivity.
    + rewrite release_resource_discarded by exact Hroom.
      apply Hsame. reflexivity.
  - intros n w0. rewrite clear_pool_run. apply Hsame. reflexivity.
  - intros w0. rewrite get_status_run. apply Hsame. reflexivity.
Qed.

(** X12: every call of [destroy_resource] is counted and every count is a
    call: across any sequence of calls, the number of resources passed to
    [destroy_resource] is the growth of [count_cleared + count_killed_stale
    + count_killed_ttl + count_overflow_discard]. *)
Theorem every_destruction_is_counted (clk : nat -> Z)
    (mk : nat -> CreateOutcome) (ops : list Op) (w : World) :
  let w' := exec_all clk mk ops w in
  Z.of_nat (length (destroyed (trace w')))
    - Z.of_nat (length (destroyed (trace w)))
  = count_destroyed (self w') - count_destroyed (self w).
Proof.
  cbn zeta.
  set (R := fun w w' : World =>
         Z.of_nat (length (destroyed (trace w')))
           - Z.of_nat (length (destroyed (trace w)))
         = count_destroyed (self w') - count_destroyed (self w)).
  assert (forall w0, R w0 w0) as Hrefl by (intros w0; unfold R; lia).
  assert (forall w1 w2 w3, R w1 w2 -> R w2 w3 -> R w1 w3) as Htrans
    by (unfold R; intros; lia).
  apply (exec_all_relates clk mk R Hrefl Htrans).
  clear ops w. intros op w.
  apply (exec_relates clk mk R Hrefl Htrans).
  - intros m w0. unfold R. cbn [emit snd trace self].
    rewrite destroyed_app. cbn. rewrite app_nil_r. lia.
  - intros w0. unfold R, count_destroyed.
    destruct (get_resource_pulled clk mk w0)
      as (pre & _ & Hd & Httl & Hstale & _).
    destruct (get_resource_effect clk mk w0)
      as (_ & _ & _ & _ & _ & _ & _ & Hcl & Hov & _).
    pose proof (kills_total (heap w0)
                  (min_created_at (clk (ticks w0)) (self w0)) pre) as Hk.
    rewrite Hd, Httl, Hstale, Hcl, Hov, length_app. lia.
  - intros r w0. unfold R, count_destroyed.
    destruct (has_room (self w0)) eqn:Hroom.
    + rewrite release_resource_stored by exact Hroom.
      destruct w0 as [[l lim age idle c1 c2 c3 c4 c5 c6] h t c0 tr].
      cbn -[destroyed]. rewrite destroyed_app. unfold stored_events.
      destruct (lim =? 0); cbn; rewrite app_nil_r; lia.
    + rewrite release_resource_discarded by exact Hroom.
      destruct w0 as [[l lim age idle c1 c2 c3 c4 c5 c6] h t c0 tr].
      cbn -[destroyed]. rewrite destroyed_app, length_app. cbn. lia.
  - intros n w0. unfold R, count_destroyed. rewrite clear_pool_run.
    cbn [snd trace].
    assert (destroyed (clear_events n) = []) as Hev
      by (destruct n; reflexivity).
    rewrite !destroyed_app, Hev, destroyed_map, !length_app.
    destruct w0 as [[l lim age idle c1 c2 c3 c4 c5 c6] h t c0 tr].
    cbn. lia.
  - intros w0. unfold R. rewrite get_status_run. cbn -[destroyed].
    rewrite destroyed_app. cbn. rewrite app_nil_r. lia.
Qed.

(** ** Stamps *)

Lemma stamped_stamp (h : gmap ObjId Obj) (r : ObjId) (key key' : string)
    (t : Z) (x : ObjId) :
  stamped key h x -> stamped key (<[r := stamp key' t (h !!! r)]> h) x.
Proof.
  unfold stamped. intros Hx. destruct (decide (x = r)) as [->|Hne].
  - rewrite lookup_total_insert_eq. cbn.
    destruct (decide (key' = key)) as [->|Hk].
    + rewrite lookup_insert_eq. eexists. reflexivity.
    + rewrite lookup_insert_ne by exact Hk. exact Hx.
  - rewrite lookup_total_insert_ne by congruence. exact Hx.
Qed.

Lemma stamped_here (h : gmap ObjId Obj) (r : ObjId) (key : string) (t : Z) :
  stamped key (<[r := stamp key t (h !!! r)]> h) r.
Proof.
  unfold stamped. rewrite lookup_total_insert_eq. cbn.
  rewrite lookup_insert_eq. eexists. reflexivity.
Qed.

(** X13: every idle resource carries a [RELEASED] stamp: in every state
    reached from a newly constructed pool by any sequence of calls, each
    object in the idle sequence has the entry [RELEASED] in its
    [__dict__], so the idle check of [get_resource] never falls back on
    its default for a pooled resource. *)
Theorem idle_resources_are_stamped (clk : nat -> Z)
    (mk : nat -> CreateOutcome) (limit age idle : Z) (h : gmap ObjId Obj)
    (t c : nat) (tr : list Event) (ops : list Op) (r : ObjId) :
  let w := exec_all clk mk ops (mkWorld (__init__ limit age idle) h t c tr) in
  r ∈ __pool (self w) -> stamped RELEASED (heap w) r.
Proof.
  cbn zeta. intros Hin.
  assert (Forall (stamped RELEASED
                    (heap (exec_all clk mk ops
                             (mkWorld (__init__ limit age idle) h t c tr))))
            (__pool (self (exec_all clk mk ops
                             (mkWorld (__init__ limit age idle) h t c tr)))))
    as Hall.
  { clear Hin.
    apply (exec_all_preserves clk mk
             (fun w => Forall (stamped RELEASED (heap w)) (__pool (self w)))).
    - intros op w Hw. apply exec_preserves; try assumption.
      + intros m w0 H0. exact H0.
      + intros w0 H0.
        pose proof (get_resource_effect clk mk w0) as Heff. cbn zeta in Heff.
        destruct Heff as (pre & _ & _ & _ & _ & _ & _ & _ & _ & _ & [gone Hgone] & Ho).
        rewrite Hgone in H0. apply Forall_app in H0 as [_ H0].
        destruct (get_resource clk mk w0).1 as [x|e|].
        * destruct Ho as [(_ & _ & _ & _ & -> & _) | (_ & _ & _ & _ & -> & _)];
            [exact H0|].
          eapply Forall_impl; [exact H0|]. intros y Hy.
          apply stamped_stamp. exact Hy.
        * destruct Ho as (_ & _ & _ & -> & _). exact H0.
        * destruct Ho.
      + intros x w0 H0. destruct (has_room (self w0)) eqn:Hroom.
        * rewrite release_resource_stored by exact Hroom.
          destruct w0 as [[l lim a i c1 c2 c3 c4 c5 c6] h0 t0 c0 tr0].
          cbn in *. apply Forall_app. split.
          -- eapply Forall_impl; [exact H0|]. intros y Hy.
             apply stamped_stamp. exact Hy.
          -- constructor; [apply stamped_here | constructor].
        * rewrite release_resource_discarded by exact Hroom.
          destruct w0 as [[l lim a i c1 c2 c3 c4 c5 c6] h0 t0 c0 tr0].
          exact H0.
      + intros n _ w0 _. rewrite clear_pool_run.
        destruct w0 as [[l lim a i c1 c2 c3 c4 c5 c6] h0 t0 c0 tr0].
        constructor.
      + intros _ w0 _. rewrite clear_pool_run.
        destruct w0 as [[l lim a i c1 c2 c3 c4 c5 c6] h0 t0 c0 tr0].
        constructor.
      + intros _ w0 H0. rewrite get_status_run. exact H0.
    - constructor. }
  rewrite Forall_forall in Hall. apply Hall. exact Hin.
Qed.

Lemma idle_resources_are_stamped_witness :
  let w := exec_all clk_demo mk_demo [OpPreheat 2; OpGet; OpRelease 7%nat]
             (fresh 10 3600 300) in
  7%nat ∈ __pool (self w) /\ stamped RELEASED (heap w) 7%nat.
Proof.
  cbn zeta.
  assert (7%nat ∈ __pool (self (exec_all clk_demo mk_demo
                                 [OpPreheat 2; OpGet; OpRelease 7%nat]
                                 (fresh 10 3600 300)))) as Hin.
  { vm_compute. repeat constructor. }
  split; [exact Hin|].
  apply (idle_resources_are_stamped clk_demo mk_demo 10 3600 300 ∅ 0%nat 0%nat
           [] [OpPreheat 2; OpGet; OpRelease 7%nat] 7%nat).
  exact Hin.
Defined.

(** ** Calls of the hook *)

Lemma get_resource_creates (clk : nat -> Z) (mk : nat -> CreateOutcome)
    (w : World) :
  (creates w <= creates (get_resource clk mk w).2 <= S (creates w))%nat.
Proof.
  destruct (get_resource_pulled clk mk w)
    as (pre & _ & _ & _ & _ & [(r & _ & _ & _ & ->) | [(_ & _ & ->)
                                                     | (x & _ & _ & ->)]]);
    lia.
Qed.

Lemma release_resource_creates (clk : nat -> Z) (r : ObjId) (w : World) :
  creates (release_resource clk r w).2 = creates w.
Proof.
  destruct (has_room (self w)) eqn:Hroom.
  - rewrite release_resource_stored by exact Hroom. reflexivity.
  - rewrite release_resource_discarded by exact Hroom. reflexivity.
Qed.

Lemma acquire_all_creates (clk : nat -> Z) (mk : nat -> CreateOutcome)
    (n : nat) : forall w,
  (creates w <= creates (acquire_all clk mk n w).2 <= creates w + n)%nat.
Proof.
  induction n as [|n IH]; intros w; [cbn; lia|].
  cbn [acquire_all]. unfold mbind, M_bind.
  pose proof (get_resource_creates clk mk w) as H1.
  destruct (get_resource clk mk w) as [[r|e|] w1]; cbn [snd] in *; try lia.
  pose proof (IH w1) as H2.
  destruct (acquire_all clk mk n w1) as [[rs|e|] w2];
    unfold mret, M_ret; cbn [snd] in *; lia.
Qed.

Lemma release_all_creates (clk : nat -> Z) (rs : list ObjId) : forall w,
  creates (release_all clk rs w).2 = creates w.
Proof.
  induction rs as [|r rs IH]; intros w; [reflexivity|].
  cbn [release_all]. unfold mbind, M_bind.
  pose proof (release_resource_creates clk r w) as H1.
  pose proof (release_resource_returns clk w r) as Hret.
  destruct (release_resource clk r w) as [o w1]; cbn [fst snd] in *.
  subst o. rewrite IH. exact H1.
Qed.

(** X14: the pool calls [create_resource] only from [get_resource], and at
    most once per call of it: [get_resource] calls the hook at most once,
    [preheat(count)] at most [count] times, and [release_resource],
    [clear_pool], [restart_pool], [shut_down] and [get_status] never. *)
Theorem create_resource_call_bound (clk : nat -> Z)
    (mk : nat -> CreateOutcome) (op : Op) (w : World) :
  (creates w <= creates (exec clk mk op w).2 <= creates w + create_bound op)%nat.
Proof.
  destruct op as [|r|n|n| |count|]; cbn [exec create_bound].
  - unfold mbind, M_bind. pose proof (get_resource_creates clk mk w) as H1.
    destruct (get_resource clk mk w) as [[r|e|] w1];
      unfold mret, M_ret; cbn [snd] in *; lia.
  - rewrite release_resource_creates. lia.
  - rewrite clear_pool_run. cbn. lia.
  - unfold restart_pool, mbind, M_bind. cbn [emit].
    rewrite clear_pool_run. cbn. lia.
  - unfold shut_down, mbind, M_bind. cbn [emit].
    rewrite clear_pool_run. cbn. lia.
  - unfold preheat, mbind, M_bind. cbn [emit].
    set (w0 := mkWorld _ _ _ _ _).
    pose proof (acquire_all_creates clk mk (Z.to_nat count) w0) as H1.
    change (creates w0) with (creates w) in H1.
    destruct (acquire_all clk mk (Z.to_nat count) w0) as [[rs|e|] w1];
      cbn [snd] in *; try lia.
    rewrite release_all_creates. lia.
  - unfold mbind, M_bind.
    pose proof (get_status_run w) as H1.
    destruct (get_status w) as [[d|e|] w1];
      unfold mret, M_ret; cbn [snd] in *; subst w1; cbn; lia.
Qed.

(** ** Callers that follow the protocol *)

Lemma remove_one_elem (r : ObjId) (l rest : list ObjId) :
  remove_one r l = Some rest -> r ∈ l /\ forall x, x ∈ rest -> x ∈ l.
Proof.
  revert rest. induction l as [|y l IH]; intros rest; cbn; [discriminate|].
  destruct (decide (y = r)) as [->|Hne].
  - intros [= <-]. split; [left|]. intros x Hx. right. exact Hx.
  - destruct (remove_one r l) as [l''|]; [|discriminate].
    intros [= <-]. destruct (IH l'' eq_refl) as [Hr Hsub].
    split; [right; exact Hr|].
    intros x Hx. apply elem_of_cons in Hx as [-> | Hx];
      [left | right; apply Hsub; exact Hx].
Qed.

(** X15: with callers that release only what they hold, every resource held
    by a caller or idle in the pool carries a [CREATED] stamp: in every
    state reached from a new pool by such a sequence of [get_resource] and
    [release_resource] calls, the age check of [get_resource] reads a
    stamp that the pool wrote when it created the resource. *)
Theorem pooled_resources_have_a_creation_stamp (clk : nat -> Z)
    (mk : nat -> CreateOutcome) (limit age idle : Z) (cs : list Call)
    (s : Sys) (r : ObjId) :
  calls clk mk cs (mkSys (fresh limit age idle) []) = Some s ->
  r ∈ held s \/ r ∈ __pool (self (world s)) ->
  stamped CREATED (heap (world s)) r.
Proof.
  intros Hcs.
  set (K := fun s : Sys => forall x,
         x ∈ held s \/ x ∈ __pool (self (world s)) ->
         stamped CREATED (heap (world s)) x).
  assert (forall c s1 s2, call clk mk c s1 = Some s2 -> K s1 -> K s2) as Hstep.
  { intros c [w hd] s2. unfold K. cbn [world held].
    destruct c as [|x]; cbn [call world held].
    - pose proof (get_resource_effect clk mk w) as Heff. cbn zeta in Heff.
      destruct (get_resource clk mk w) as [o w']. cbn [fst snd] in Heff.
      destruct Heff as (pre & _ & _ & _ & _ & _ & _ & _ & _ & _ & [gone Hgone] & Ho).
      intros Hs2 HK.
      assert (forall y, y ∈ __pool (self w') -> y ∈ __pool (self w)) as Hsub.
      { intros y Hy. rewrite Hgone. apply elem_of_app. right. exact Hy. }
      destruct o as [x|e|].
      + injection Hs2 as <-. cbn [world held].
        destruct Ho as [(Hl & _ & _ & _ & -> & _) | (_ & _ & _ & _ & -> & _)].
        * intros y [Hy | Hy]; apply HK.
          -- apply elem_of_cons in Hy as [-> | Hy]; [right | left; exact Hy].
             rewrite Hl. apply elem_of_app. right. left.
          -- right. apply Hsub. exact Hy.
        * intros y [Hy | Hy].
          -- apply elem_of_cons in Hy as [-> | Hy]; [apply stamped_here|].
             apply stamped_stamp. apply HK. left. exact Hy.
          -- apply stamped_stamp. apply HK. right. apply Hsub. exact Hy.
      + injection Hs2 as <-. cbn [world held].
        destruct Ho as (_ & _ & _ & -> & _).
        intros y [Hy | Hy]; apply HK; [left; exact Hy | right; apply Hsub; exact Hy].
      + destruct Ho.
    - destruct (remove_one x hd) as [rest|] eqn:Hrm; [|discriminate].
      apply remove_one_elem in Hrm as [Hx Hsub].
      intros [= <-] HK. cbn [world held].
      destruct (has_room (self w)) eqn:Hroom.
      + rewrite release_resource_stored by exact Hroom.
        destruct w as [[l lim a i c1 c2 c3 c4 c5 c6] h0 t0 c0 tr0].
        cbn in *. intros y Hy. apply stamped_stamp. apply HK.
        destruct Hy as [Hy | Hy]; [left; apply Hsub; exact Hy|].
        apply elem_of_app in Hy as [Hy | Hy]; [right; exact Hy|].
        apply list_elem_of_singleton in Hy as ->. left. exact Hx.
      + rewrite release_resource_discarded by exact Hroom.
        destruct w as [[l lim a i c1 c2 c3 c4 c5 c6] h0 t0 c0 tr0].
        cbn in *. intros y [Hy | Hy]; apply HK;
          [left; apply Hsub; exact Hy | right; exact Hy]. }
  assert (forall l s1 s2, calls clk mk l s1 = Some s2 -> K s1 -> K s2) as Hall.
  { intros l. induction l as [|c l IH]; intros s1 s2; cbn [calls].
    - intros [= <-] H1. exact H1.
    - destruct (call clk mk c s1) as [s1'|] eqn:Hc; [|discriminate].
      intros Hcs' H1. apply (IH s1' s2 Hcs'). exact (Hstep c s1 s1' Hc H1). }
  apply (Hall cs _ s Hcs).
  intros x [Hx | Hx]; cbn in Hx; inversion Hx.
Qed.

Lemma pooled_resources_have_a_creation_stamp_witness :
  match calls clk_demo mk_demo [Acquire; Acquire; Release 10%nat]
          (mkSys (fresh 10 3600 300) []) with
  | Some s => stamped CREATED (heap (world s)) 10%nat
              /\ stamped CREATED (heap (world s)) 11%nat
  | None => False
  end.
Proof.
  destruct (calls clk_demo mk_demo [Acquire; Acquire; Release 10%nat]
              (mkSys (fresh 10 3600 300) [])) as [s|] eqn:E.
  - split.
    + apply (pooled_resources_have_a_creation_stamp clk_demo mk_demo
               10 3600 300 _ s 10%nat E).
      vm_compute in E. injection E as <-. right. repeat constructor.
    + apply (pooled_resources_have_a_creation_stamp clk_demo mk_demo
               10 3600 300 _ s 11%nat E).
      vm_compute in E. injection E as <-. left. repeat constructor.
  - vm_compute in E. discriminate E.
Defined.

(** ** The loop and the order of service *)

(** X16: the loop of [get_resource] ends after at most [len(pool) + 1]
    pulls: with any fuel above the length of the idle sequence it ends
    without running out, and with the same result and the same world as
    with any other such fuel. *)
Theorem scan_needs_one_pull_per_idle_resource (mc mf : Z)
    (kill_list : list ObjId) (w : World) (fuel : nat) :
  (length (__pool (self w)) < fuel)%nat ->
  scan fuel mc mf kill_list w
    = scan (S (length (__pool (self w)))) mc mf kill_list w /\
  (scan fuel mc mf kill_list w).1 <> OutOfFuel.
Proof.
  destruct w as [[l lim age idle c1 c2 c3 c4 c5 c6] h t c tr]. cbn [self __pool].
  intros Hfuel.
  destruct (span_doomed h mc mf l)
    as (pre & post & -> & Hpre & Hpost).
  rewrite length_app in Hfuel |- *.
  replace fuel with (length pre + S (fuel - length pre - 1))%nat by lia.
  replace (S (length pre + length post))
    with (length pre + S (length post))%nat by lia.
  rewrite !scan_prefix by exact Hpre.
  destruct Hpost as [-> | (r & post' & -> & [Hr | Hr])].
  - rewrite !scan_stop_empty. split; [reflexivity | discriminate].
  - rewrite !scan_stop_valid by exact Hr. split; [reflexivity | discriminate].
  - rewrite !scan_stop_falsy by exact Hr. split; [reflexivity | discriminate].
Qed.

Lemma scan_needs_one_pull_per_idle_resource_witness :
  scan 9 6400 9700 [] w_mixed = scan 5 6400 9700 [] w_mixed.
Proof.
  apply (scan_needs_one_pull_per_idle_resource 6400 9700 [] w_mixed 9).
  cbn. lia.
Defined.

(** X17: resources are served in the order they were stored.  With both
    checks switched off ([max_age = max_idle_time = 0]) and an idle
    sequence of true objects whose stamps are not negative, [n] successive
    calls of [get_resource] (as [preheat] makes them), for [n] up to the
    length of the idle sequence, return its first [n] resources in order
    and leave the others; nothing is created or destroyed and no stamp is
    written. *)
Theorem get_resource_serves_in_order (clk : nat -> Z)
    (mk : nat -> CreateOutcome) (n : nat) : forall w : World,
  max_age (self w) = 0 ->
  max_idle_time (self w) = 0 ->
  Forall (valid (heap w) 0 0) (__pool (self w)) ->
  (n <= length (__pool (self w)))%nat ->
  (acquire_all clk mk n w).1 = Ret (take n (__pool (self w))) /\
  let w' := (acquire_all clk mk n w).2 in
  __pool (self w') = drop n (__pool (self w)) /\
  count_served_from_pool (self w') =
    count_served_from_pool (self w) + Z.of_nat n /\
  count_created (self w') = count_created (self w) /\
  count_destroyed (self w') = count_destroyed (self w) /\
  creates w' = creates w /\
  heap w' = heap w.
Proof.
  induction n as [|n IH]; intros w Hage Hidle Hvalid Hn.
  - cbn. rewrite Z.add_0_r, drop_0. repeat split; reflexivity.
  - destruct (__pool (self w)) as [|r post] eqn:Hl; [cbn in Hn; lia|].
    inversion Hvalid as [|? ? Hr Hpost]; subst.
    assert (min_created_at (clk (ticks w)) (self w) = 0) as Hmc
      by (unfold min_created_at; rewrite Hage; reflexivity).
    assert (min_fresh_at (clk (ticks w)) (self w) = 0) as Hmf
      by (unfold min_fresh_at; rewrite Hidle; reflexivity).
    pose proof (get_resource_serves clk mk w [] r post Hl) as Hget.
    cbn zeta in Hget. rewrite Hmc, Hmf in Hget.
    specialize (Hget (Forall_nil_2 _) Hr).
    cbn [acquire_all]. unfold mbind, M_bind. rewrite Hget.
    set (w1 := scanned 0 [] post (pull_events ++ incr_events CServedFromPool)
                 1 w).
    destruct (IH w1) as (Ho & Hl' & Hs & Hc & Hd & Hcr & Hh).
    + subst w1. cbn. exact Hage.
    + subst w1. cbn. exact Hidle.
    + subst w1. cbn. exact Hpost.
    + subst w1. cbn. cbn in Hn. lia.
    + destruct (acquire_all clk mk n w1) as [o w2]. cbn [fst snd] in *.
      subst o. unfold mret, M_ret. cbn [fst snd take drop].
      split; [reflexivity|].
      rewrite Hl', Hs, Hc, Hd, Hcr, Hh. subst w1.
      unfold count_destroyed. cbn. unfold ttl_kills, stale_kills. cbn.
      repeat split; try reflexivity; lia.
Qed.

Lemma get_resource_serves_in_order_witness :
  (acquire_all clk_late mk_demo 3 w_unchecked).1
  = Ret [1%nat; 2%nat; 3%nat].
Proof.
  apply (get_resource_serves_in_order clk_late mk_demo 3 w_unchecked).
  - reflexivity.
  - reflexivity.
  - repeat constructor; vm_compute; discriminate.
  - cbn. lia.
Defined.

(** X18: the stamps are readings of the clock: with a clock that never
    reads below 0, in every state reached from a new pool by any sequence
    of calls no object has a negative [CREATED] or [RELEASED] stamp (an
    object without a stamp counts as stamped 0, as in
    [resdict.get(key, 0)]). *)
Theorem stamps_are_never_negative (clk : nat -> Z)
    (mk : nat -> CreateOutcome) (limit age idle : Z) (ops : list Op)
    (r : ObjId) :
  (forall n, 0 <= clk n) ->
  let w := exec_all clk mk ops (fresh limit age idle) in
  0 <= createdAt (heap w) r /\ 0 <= releasedAt (heap w) r.
Proof.
  intros Hclk. cbn zeta.
  apply (after_epoch_exec_all clk mk limit age idle ops Hclk r).
Qed.

Lemma stamps_are_never_negative_witness :
  let w := exec_all clk_demo mk_demo [OpPreheat 2; OpGet]
             (fresh 10 3600 300) in
  0 <= createdAt (heap w) 10%nat /\ 0 <= releasedAt (heap w) 10%nat.
Proof.
  apply (stamps_are_never_negative clk_demo mk_demo 10 3600 300
           [OpPreheat 2; OpGet] 10%nat).
  intros n. unfold clk_demo. lia.
Defined.

(** ** Edge cases *)

(** X19: a resource that was never stamped [CREATED] (one the pool did not
    create) counts as created at time 0: when [max_age] is not 0 and the
    snapshot of the call is later than [max_age], [get_resource] finding
    such a true object at the front of the idle sequence destroys it as too
    old and counts it in [count_killed_ttl]. *)
Theorem get_resource_kills_unstamped_resource (clk : nat -> Z)
    (mk : nat -> CreateOutcome) (w : World) (r : ObjId) (post : list ObjId) :
  __pool (self w) = r :: post ->
  truthy (heap w !!! r) = true ->
  obj_dict (heap w !!! r) !! CREATED = None ->
  max_age (self w) <> 0 ->
  max_age (self w) < clk (ticks w) ->
  let w' := (get_resource clk mk w).2 in
  (exists killed, destroyed (trace w') = destroyed (trace w) ++ r :: killed) /\
  count_killed_ttl (self w) < count_killed_ttl (self w').
Proof.
  intros Hl Ht Hnone Hage Hlate. cbn zeta.
  assert (createdAt (heap w) r
          < min_created_at (clk (ticks w)) (self w)) as Hold.
  { unfold createdAt, dict_get, min_created_at. rewrite Hnone. cbn.
    destruct (Z.eqb_spec (max_age (self w)) 0); lia. }
  destruct (get_resource_pulled clk mk w)
    as (pre & Hpre & Hd & Httl & _ & Hcase).
  assert (exists pre', pre = r :: pre') as [pre' ->].
  { destruct pre as [|y pre'].
    - exfalso. rewrite Hl in Hcase. cbn [app] in Hcase.
      destruct Hcase as [(x & _ & E & (_ & Hc & _) & _) | [(E & _)
                        | (x & E & Hx & _)]].
      + injection E as <- _. lia.
      + discriminate E.
      + injection E as <- _. congruence.
    - exists pre'. f_equal. rewrite Hl in Hcase. cbn [app] in Hcase.
      destruct Hcase as [(x & _ & E & _) | [(E & _) | (x & E & _)]];
        injection E as -> _; reflexivity. }
  split; [exists pre'; exact Hd|].
  rewrite Httl, ttl_kills_cons.
  pose proof (kills_nonneg (heap w)
                (min_created_at (clk (ticks w)) (self w)) pre') as [? _].
  destruct (Z.ltb_spec (createdAt (heap w) r)
              (min_created_at (clk (ticks w)) (self w))); lia.
Qed.

Lemma get_resource_kills_unstamped_resource_witness :
  let w := (release_resource clk_late 7%nat (fresh 10 3600 300)).2 in
  destroyed (trace (get_resource clk_late mk_demo w).2) = [7%nat].
Proof.
  cbn zeta.
  destruct (get_resource_kills_unstamped_resource clk_late mk_demo
              (release_resource clk_late 7%nat (fresh 10 3600 300)).2
              7%nat []) as [[killed Hd] _].
  - reflexivity.
  - reflexivity.
  - reflexivity.
  - vm_compute. discriminate.
  - reflexivity.
  - reflexivity.
Defined.

(** X20: [release_resource] does not check whether the resource is already
    idle: released twice while there is room, the same object is stored
    twice, at the back of the idle sequence, and both entries show the
    stamp of the second release. *)
Theorem release_resource_twice_stores_twice (clk : nat -> Z) (w : World)
    (resource : ObjId) :
  pool_size_limit (self w) = 0 \/
  Z.of_nat (length (__pool (self w))) + 1 < pool_size_limit (self w) ->
  let w1 := (release_resource clk resource w).2 in
  let w2 := (release_resource clk resource w1).2 in
  __pool (self w2) = __pool (self w) ++ [resource; resource] /\
  releasedAt (heap w2) resource = clk (S (ticks w)) /\
  count_overflow_discard (self w2) = count_overflow_discard (self w) /\
  destroyed (trace w2) = destroyed (trace w).
Proof.
  intros Hlim. cbn zeta.
  assert (has_room (self w) = true) as Hroom.
  { unfold has_room. apply orb_true_iff.
    destruct Hlim as [H0 | Hlt];
      [left; apply Z.eqb_eq; exact H0 | right; apply Z.ltb_lt; lia]. }
  rewrite (release_resource_stored clk w resource Hroom). cbn [snd].
  set (w1 := mkWorld _ _ _ _ _).
  assert (has_room (self w1) = true) as Hroom1.
  { subst w1. destruct w as [[l lim age idle c1 c2 c3 c4 c5 c6] h t c tr].
    unfold has_room. cbn in *. rewrite length_app. cbn.
    apply orb_true_iff.
    destruct Hlim as [H0 | Hlt];
      [left; apply Z.eqb_eq; exact H0 | right; apply Z.ltb_lt; lia]. }
  rewrite (release_resource_stored clk w1 resource Hroom1). subst w1.
  destruct w as [[l lim age idle c1 c2 c3 c4 c5 c6] h t c tr].
  cbn -[destroyed]. split; [rewrite <- app_assoc; reflexivity|].
  split.
  { unfold releasedAt, dict_get. rewrite lookup_total_insert_eq. cbn.
    rewrite lookup_insert_eq. reflexivity. }
  split; [reflexivity|].
  rewrite !destroyed_app. unfold stored_events.
  destruct (lim =? 0); cbn; rewrite !app_nil_r; reflexivity.
Qed.

Lemma release_resource_twice_stores_twice_witness :
  __pool (self (release_resource clk_demo 7%nat
                  (release_resource clk_demo 7%nat (fresh 10 3600 300)).2).2)
  = [7%nat; 7%nat].
Proof.
  apply (release_resource_twice_stores_twice clk_demo (fresh 10 3600 300)
           7%nat).
  right. reflexivity.
Defined.

(** X21: [restart_pool(n)] brings a shut-down pool back to service: after
    [shut_down()] and then [restart_pool(n)] with [n >= 0], the idle
    sequence is empty, the limit is [n], and a released resource is stored
    again instead of being discarded. *)
Theorem restart_pool_resumes_service (clk : nat -> Z) (w : World) (n : Z)
    (resource : ObjId) :
  0 <= n ->
  let w1 := (restart_pool (Some n) (shut_down w).2).2 in
  __pool (self w1) = [] /\
  pool_size_limit (self w1) = n /\
  let w2 := (release_resource clk resource w1).2 in
  __pool (self w2) = [resource] /\
  count_overflow_discard (self w2) = count_overflow_discard (self w1).
Proof.
  intros Hn. cbn zeta.
  unfold restart_pool, shut_down, mbind, M_bind. cbn [emit].
  rewrite clear_pool_run. cbn [snd]. rewrite clear_pool_run. cbn [snd].
  set (w1 := mkWorld _ _ _ _ _).
  assert (__pool (self w1) = [] /\ pool_size_limit (self w1) = n) as [Hl Hlim].
  { subst w1. destruct w as [[l lim age idle c1 c2 c3 c4 c5 c6] h t c tr].
    split; reflexivity. }
  split; [exact Hl|]. split; [exact Hlim|].
  assert (has_room (self w1) = true) as Hroom.
  { unfold has_room. rewrite Hl, Hlim. apply orb_true_iff.
    destruct (Z.eq_dec n 0) as [-> | Hne]; [left; reflexivity|].
    right. apply Z.ltb_lt. cbn. lia. }
  rewrite (release_resource_stored clk w1 resource Hroom).
  destruct w1 as [[l lim age idle c1 c2 c3 c4 c5 c6] h t c tr].
  cbn in *. subst l. split; reflexivity.
Qed.

Lemma restart_pool_resumes_service_witness :
  __pool (self (release_resource clk_demo 7%nat
                  (restart_pool (Some 5)
                     (shut_down (fresh 10 3600 300)).2).2).2)
  = [7%nat].
Proof.
  apply (restart_pool_resumes_service clk_demo (fresh 10 3600 300) 5 7%nat).
  lia.
Defined.

(** X22: [preheat(count)] with [count <= 0] does nothing: [range(count)]
    is empty, so no resource is acquired, created, released or destroyed,
    and the pool, the objects, the clock and the factory are as they
    were. *)
Theorem preheat_nothing_for_nonpositive_count (clk : nat -> Z)
    (mk : nat -> CreateOutcome) (w : World) (count : Z) :
  count <= 0 ->
  (preheat clk mk count w).1 = Ret tt /\
  let w' := (preheat clk mk count w).2 in
  self w' = self w /\ heap w' = heap w /\ ticks w' = ticks w /\
  creates w' = creates w /\ trace w' = trace w ++ [EvCall MPreheat].
Proof.
  intros Hcount. unfold preheat.
  replace (Z.to_nat count) with 0%nat by lia.
  repeat split; reflexivity.
Qed.

Lemma preheat_nothing_for_nonpositive_count_witness :
  self (preheat clk_demo mk_demo (-3) w_mixed).2 = self w_mixed.
Proof.
  apply (preheat_nothing_for_nonpositive_count clk_demo mk_demo w_mixed (-3)).
  lia.
Defined.
